(** * Mandelbrot viewer core: escape-time evaluator, colour mapper,
      coordinate mapper, viewport algebra and frame renderer.

    The TypeScript module computes on JavaScript numbers, i.e. IEEE-754
    binary64 values.  The program is written once, over an interface
    [JsNumber] that lists the arithmetic and the [Math] functions the
    source calls, and is then instantiated three times:

    - [Binary64.number]: Rocq's primitive binary64 floats, the arithmetic
      the code runs on (every function can be evaluated);
    - [Rounded.number rnd]: the real numbers with a rounding [rnd] applied
      to the result of every operation, the abstraction of binary64 in which
      the statements about all inputs are proved;
    - [Exact.number]: the real numbers without any rounding, used only for
      instances of statements that hold for every number instance.

    Iteration counts, pixel indices inside the renderer and canvas sizes of
    the renderer are integer-valued numbers; they are kept in [Z] and
    converted with [of_Z] where the source mixes them with fractional
    numbers. *)

From Stdlib Require Import ZArith Floats Reals Lra Lia Bool String.
From stdpp Require Import list.

Local Open Scope Z_scope.

(** ** The numbers of the program *)

Class JsNumber (num : Type) : Type := {
  of_Z : Z -> num;                  (* integer literals and integer-valued numbers *)
  num_add : num -> num -> num;      (* a + b *)
  num_sub : num -> num -> num;      (* a - b *)
  num_mul : num -> num -> num;      (* a * b *)
  num_div : num -> num -> num;      (* a / b *)
  num_leb : num -> num -> bool;     (* a <= b *)
  Math_floor : num -> num;
  Math_round : num -> num;
  Math_min : num -> num -> num;
  Math_max : num -> num -> num;
  Math_PI : num;
  ToUint8Clamp : num -> Z           (* the conversion of a Uint8ClampedArray store *)
}.

(** [Math.sin] is a host function whose result is implementation-approximated;
    it is taken as a parameter of the colour mapper. *)
Class JsTrig (num : Type) : Type := { Math_sin : num -> num }.

Declare Scope js_scope.
Delimit Scope js_scope with js.
Notation "a + b" := (num_add a b) : js_scope.
Notation "a - b" := (num_sub a b) : js_scope.
Notation "a * b" := (num_mul a b) : js_scope.
Notation "a / b" := (num_div a b) : js_scope.
Notation "a <=? b" := (num_leb a b) : js_scope.
Abbreviation lit := of_Z (only parsing).

(** ** Data model *)

Record Viewport (num : Type) : Type := mkViewport {
  xMin : num;
  xMax : num;
  yMin : num;
  yMax : num
}.
Arguments mkViewport {num}.
Arguments xMin {num}.
Arguments xMax {num}.
Arguments yMin {num}.
Arguments yMax {num}.

Record RenderOptions : Type := mkRenderOptions {
  maxIterations : Z;
  colorScheme : string
}.

Record Color (num : Type) : Type := mkColor { r : num; g : num; b : num }.
Arguments mkColor {num}.
Arguments r {num}.
Arguments g {num}.
Arguments b {num}.

Record Complex (num : Type) : Type := mkComplex { real : num; imaginary : num }.
Arguments mkComplex {num}.
Arguments real {num}.
Arguments imaginary {num}.

Record Pixel (num : Type) : Type := mkPixel { x : num; y : num }.
Arguments mkPixel {num}.
Arguments x {num}.
Arguments y {num}.

(** [ImageData]: the RGBA bytes, row-major, four per pixel. *)
Record ImageData : Type := mkImageData {
  width : Z;
  height : Z;
  data : list Z
}.

(** ** The program *)

Section Program.
Context {num : Type} {N : JsNumber num}.
Local Open Scope js_scope.

(** The [while] loop of [calculateMandelbrot].  Each round increments
    [iteration], so [maxIterations - iteration] rounds always suffice;
    [fuel] is that bound (see [mandelbrotLoop_fuel]). *)
Fixpoint mandelbrotLoop (fuel : nat) (cx cy : num) (maxIterations : Z)
    (x y : num) (iteration : Z) : Z :=
  match fuel with
  | O => iteration
  | S fuel' =>
      if (x * x + y * y <=? lit 4) && (iteration <? maxIterations)%Z then
        let xTemp := x * x - y * y + cx in
        let y' := lit 2 * x * y + cy in
        mandelbrotLoop fuel' cx cy maxIterations xTemp y' (iteration + 1)%Z
      else iteration
  end.

Definition calculateMandelbrot (cx cy : num) (maxIterations : Z) : Z :=
  mandelbrotLoop (Z.to_nat maxIterations) cx cy maxIterations (lit 0) (lit 0) 0%Z.

Definition black : Color num := mkColor (lit 0) (lit 0) (lit 0).

Definition clamp255 (v : num) : num := Math_max (lit 0) (Math_min (lit 255) v).

Definition getColor `{T : JsTrig num}
    (iteration maxIterations : Z) (scheme : string) : Color num :=
  if (iteration =? maxIterations)%Z then black
  else
    let t := lit iteration / lit maxIterations in
    if String.eqb scheme "grayscale" then
      let gray := Math_floor (lit 255 * (lit 1 - t)) in
      mkColor gray gray gray
    else if String.eqb scheme "rainbow" then
      mkColor
        (clamp255 (Math_floor (lit 255 * Math_sin (Math_PI * t * lit 3))))
        (clamp255 (Math_floor (lit 255 *
           Math_sin (Math_PI * t * lit 3 + (lit 2 * Math_PI) / lit 3))))
        (clamp255 (Math_floor (lit 255 *
           Math_sin (Math_PI * t * lit 3 + (lit 4 * Math_PI) / lit 3))))
    else if String.eqb scheme "fire" then
      let ramp := t * lit 4 in
      let c :=
        if ramp <=? lit 1 then
          mkColor (Math_floor (lit 255 * ramp)) (lit 0) (lit 0)
        else if ramp <=? lit 2 then
          mkColor (lit 255) (Math_floor (lit 255 * (ramp - lit 1))) (lit 0)
        else if ramp <=? lit 3 then
          mkColor (lit 255) (lit 255) (Math_floor (lit 255 * (ramp - lit 2)))
        else
          mkColor (lit 255) (lit 255)
            (Math_floor (lit 255 * Math_min (lit 1) (lit 4 - ramp))) in
      mkColor (clamp255 (r c)) (clamp255 (g c)) (clamp255 (b c))
    else black.

Definition pixelToComplex (pixelX pixelY width height : num)
    (viewport : Viewport num) : Complex num :=
  let scaleX := (xMax viewport - xMin viewport) / width in
  let scaleY := (yMax viewport - yMin viewport) / height in
  mkComplex (xMin viewport + pixelX * scaleX) (yMin viewport + pixelY * scaleY).

Definition complexToPixel (real imaginary width height : num)
    (viewport : Viewport num) : Pixel num :=
  let scaleX := width / (xMax viewport - xMin viewport) in
  let scaleY := height / (yMax viewport - yMin viewport) in
  mkPixel (Math_round ((real - xMin viewport) * scaleX))
          (Math_round ((imaginary - yMin viewport) * scaleY)).

(** [data[index] = v] on a [Uint8ClampedArray]: an index outside the array
    leaves it unchanged. *)
Definition store (data : list Z) (index : Z) (byte : Z) : list Z :=
  if (index <? 0)%Z then data else <[Z.to_nat index := byte]> data.

Definition renderPixel `{T : JsTrig num} (width height : Z)
    (viewport : Viewport num) (options : RenderOptions)
    (py px : Z) (data : list Z) : list Z :=
  let c := pixelToComplex (lit px) (lit py) (lit width) (lit height) viewport in
  let iteration := calculateMandelbrot (real c) (imaginary c) (maxIterations options) in
  let color := getColor iteration (maxIterations options) (colorScheme options) in
  let index := ((py * width + px) * 4)%Z in
  let data := store data index (ToUint8Clamp (r color)) in
  let data := store data (index + 1)%Z (ToUint8Clamp (g color)) in
  let data := store data (index + 2)%Z (ToUint8Clamp (b color)) in
  store data (index + 3)%Z 255%Z.

(** The colour the renderer computes for pixel [(px, py)], and the four
    bytes it stores for it. *)
Definition pixelColor `{T : JsTrig num} (width height : Z)
    (viewport : Viewport num) (options : RenderOptions) (py px : Z) : Color num :=
  let c := pixelToComplex (lit px) (lit py) (lit width) (lit height) viewport in
  getColor (calculateMandelbrot (real c) (imaginary c) (maxIterations options))
           (maxIterations options) (colorScheme options).

Definition pixelBytes `{T : JsTrig num} (width height : Z)
    (viewport : Viewport num) (options : RenderOptions) (py px : Z) : list Z :=
  [ToUint8Clamp (r (pixelColor width height viewport options py px));
   ToUint8Clamp (g (pixelColor width height viewport options py px));
   ToUint8Clamp (b (pixelColor width height viewport options py px)); 255%Z].

Definition rowBytes `{T : JsTrig num} (width height : Z)
    (viewport : Viewport num) (options : RenderOptions) (py : Z) : list Z :=
  concat (map (pixelBytes width height viewport options py) (seqZ 0 width)).

(** [for (let px = 0; px < width; px++)] *)
Definition renderRow `{T : JsTrig num} (width height : Z)
    (viewport : Viewport num) (options : RenderOptions)
    (data : list Z) (py : Z) : list Z :=
  foldl (fun d px => renderPixel width height viewport options py px d)
        data (seqZ 0 width).

(** [new ImageData(width, height)] is refused for a size that is not
    positive; otherwise it holds [width * height * 4] zero bytes. *)
Definition renderMandelbrot `{T : JsTrig num} (width height : Z)
    (viewport : Viewport num) (options : RenderOptions) : option ImageData :=
  if (0 <? width)%Z && (0 <? height)%Z then
    let blank := replicate (Z.to_nat (width * height * 4)) 0%Z in
    Some (mkImageData width height
            (foldl (renderRow width height viewport options) blank (seqZ 0 height)))
  else None.

Definition createZoomViewport (currentViewport : Viewport num)
    (x1 y1 x2 y2 width height : num) : Viewport num :=
  let left := Math_min x1 x2 in
  let right := Math_max x1 x2 in
  let top := Math_min y1 y2 in
  let bottom := Math_max y1 y2 in
  let topLeft := pixelToComplex left top width height currentViewport in
  let bottomRight := pixelToComplex right bottom width height currentViewport in
  mkViewport (real topLeft) (real bottomRight)
             (imaginary topLeft) (imaginary bottomRight).

Definition panViewport (currentViewport : Viewport num)
    (dx dy width height : num) : Viewport num :=
  let deltaReal := dx * ((xMax currentViewport - xMin currentViewport) / width) in
  let deltaImaginary := dy * ((yMax currentViewport - yMin currentViewport) / height) in
  mkViewport (xMin currentViewport - deltaReal) (xMax currentViewport - deltaReal)
             (yMin currentViewport - deltaImaginary)
             (yMax currentViewport - deltaImaginary).

Definition zoomAtPoint (currentViewport : Viewport num)
    (centerX centerY zoomFactor width height : num) : Viewport num :=
  let center := pixelToComplex centerX centerY width height currentViewport in
  let currentWidth := xMax currentViewport - xMin currentViewport in
  let currentHeight := yMax currentViewport - yMin currentViewport in
  let newWidth := currentWidth / zoomFactor in
  let newHeight := currentHeight / zoomFactor in
  mkViewport (real center - newWidth / lit 2) (real center + newWidth / lit 2)
             (imaginary center - newHeight / lit 2)
             (imaginary center + newHeight / lit 2).

(** The literals -2.5 and 1.5 are the exact quotients -5/2 and 3/2. *)
Definition getDefaultViewport : Viewport num :=
  mkViewport (lit (-5) / lit 2) (lit 1) (lit (-3) / lit 2) (lit 3 / lit 2).

End Program.

(** ** Binary64: the arithmetic the code runs on *)

Module Binary64.

(** The integer [z] as a number, rounded to nearest-even when it has more
    than 53 significant bits. *)
Definition of_Z (z : Z) : float :=
  SF2Prim (binary_normalize prec emax z 0 false).

(** [Math.floor]: NaN, the infinities and the zeros are returned as they
    are; a positive fraction gives +0. *)
Definition Math_floor (f : float) : float :=
  match Prim2SF f with
  | S754_finite s m e =>
      if 0 <=? e then f
      else let q := (if s then Z.neg m else Z.pos m) / 2 ^ (- e) in
           if q =? 0 then zero else of_Z q
  | _ => f
  end.

(** [Math.round]: the nearest integer, a tie going up; a result that
    rounds to zero keeps the sign of the argument. *)
Definition Math_round (f : float) : float :=
  match Prim2SF f with
  | S754_finite s m e =>
      if 0 <=? e then f
      else let v := if s then Z.neg m else Z.pos m in
           let q := (2 * v + 2 ^ (- e)) / 2 ^ (- e + 1) in
           if q =? 0 then (if s then neg_zero else zero) else of_Z q
  | _ => f
  end.

(** [Math.min] and [Math.max]: NaN if an argument is NaN, and -0 counts
    as smaller than +0. *)
Definition Math_min (a c : float) : float :=
  if is_nan a || is_nan c then nan
  else if (a <? c)%float then a
  else if (c <? a)%float then c
  else if is_zero a && negb (get_sign a) then c else a.

Definition Math_max (a c : float) : float :=
  if is_nan a || is_nan c then nan
  else if (a <? c)%float then c
  else if (c <? a)%float then a
  else if is_zero a && get_sign a then c else a.

Definition Math_PI : float := 0x1.921fb54442d18p+1%float.

(** The store conversion of a [Uint8ClampedArray]: NaN gives 0, the value
    is clamped to [0, 255] and rounded to the nearest integer, a tie going
    to the even one. *)
Definition ToUint8Clamp (f : float) : Z :=
  if is_nan f then 0
  else if (f <=? 0)%float then 0
  else if (255 <=? f)%float then 255
  else match Prim2SF f with
       | S754_finite _ m e =>
           if 0 <=? e then Z.pos m * 2 ^ e
           else let k := 2 ^ (- e) in
                let q := Z.pos m / k in
                let rem := Z.pos m mod k in
                if 2 * rem <? k then q
                else if k <? 2 * rem then q + 1
                else if Z.even q then q else q + 1
       | _ => 0
       end.

#[global] Instance number : JsNumber float :=
  Build_JsNumber float of_Z PrimFloat.add PrimFloat.sub PrimFloat.mul
    PrimFloat.div PrimFloat.leb Math_floor Math_round Math_min Math_max
    Math_PI ToUint8Clamp.

(** [f] is an integer of [0, 255]. *)
Definition byteValued (f : float) : bool :=
  (Math_floor f =? f)%float && (0 <=? f)%float && (f <=? 255)%float.

Definition byteChannels (c : Color float) : bool :=
  byteValued (r c) && byteValued (g c) && byteValued (b c).

(** A viewport reached by zooming in about fifty times around -0.75: its
    width, 2^-50, is eight units in the last place of its bounds. *)
Definition deepZoomViewport : Viewport float :=
  mkViewport (-0.75)%float (-0.75 + 0x1p-50)%float 0%float 0x1p-50%float.

Definition unitViewport : Viewport float :=
  mkViewport 0%float 1%float 0%float 1%float.

End Binary64.

(** ** Exact: the same program over the real numbers

    The functions that are exact on the numbers of the format, and the
    instance without any rounding.  No statement about the code is made on
    the instance; it serves for instances of statements that hold for every
    number instance. *)

Module Exact.
Local Open Scope R_scope.

Definition leb (a c : R) : bool := if Rle_dec a c then true else false.

Definition Math_floor (v : R) : R := IZR (Int_part v).

(** [Math.round]: the nearest integer, a tie going up. *)
Definition Math_round (v : R) : R := IZR (Int_part (v + / 2)).

Definition ToUint8Clamp (v : R) : Z :=
  if Rle_dec v 0 then 0%Z
  else if Rle_dec 255 v then 255%Z
  else let f := Int_part v in
       if Rlt_dec (IZR f + / 2) v then (f + 1)%Z
       else if Rlt_dec v (IZR f + / 2) then f
       else if Z.even f then f else (f + 1)%Z.

#[global] Instance number : JsNumber R :=
  Build_JsNumber R IZR Rplus Rminus Rmult Rdiv leb Math_floor Math_round
    Rmin Rmax PI ToUint8Clamp.

#[global] Instance trig : JsTrig R := Build_JsTrig R sin.

End Exact.

(** ** Rounded: the reals with a rounding after every operation

    Binary64 arithmetic computes the exact result of an operation and rounds
    it to the nearest number of the format.  [Rounded.number rnd] does so
    for an arbitrary rounding [rnd]; the statements proved about it assume
    of [rnd] only what they need ([monotone], [fixesBytes],
    [fixesSixteenths], [roundsWithin]), which the rounding of binary64 has
    on every result that stays finite.  The functions [Math.floor],
    [Math.round], [Math.min], [Math.max] and the comparison are exact on the
    numbers of the format.  A statement whose operations could overflow or
    divide by zero carries the condition that they do not. *)

Module Rounded.
Section Rounding.
Variable rnd : R -> R.
Variable host_sin : R -> R.

Definition number : JsNumber R :=
  Build_JsNumber R
    (fun n => rnd (IZR n))
    (fun a c => rnd (a + c)%R) (fun a c => rnd (a - c)%R)
    (fun a c => rnd (a * c)%R) (fun a c => rnd (a / c)%R)
    Exact.leb Exact.Math_floor Exact.Math_round Rmin Rmax (rnd PI)
    Exact.ToUint8Clamp.

Definition trig : JsTrig R := Build_JsTrig R host_sin.

End Rounding.

(** A rounding to the nearest multiple of 1/1024, as an example. *)
Definition toGrid (v : R) : R := (IZR (Int_part (v * 1024 + / 2)) / 1024)%R.

(** The rounding that changes nothing. *)
Definition identity (v : R) : R := v.

End Rounded.

(** A rounding never reverses the order of two numbers. *)
Definition monotone (rnd : R -> R) : Prop :=
  forall u v : R, (u <= v)%R -> (rnd u <= rnd v)%R.

(** The integers of [0, 255] are numbers of the format. *)
Definition fixesBytes (rnd : R -> R) : Prop :=
  forall n : Z, 0 <= n <= 255 -> rnd (IZR n) = IZR n.

(** The multiples of 1/16 from -4 to 4 are numbers of the format. *)
Definition fixesSixteenths (rnd : R -> R) : Prop :=
  forall n : Z, -64 <= n <= 64 -> rnd (IZR n / 16)%R = (IZR n / 16)%R.

(** ** Rounding errors

    The rounding of binary64 returns the number of the format nearest to the
    exact result [v] of an operation.  While [v] is zero or lies, in
    magnitude, between the smallest normal number [lam] and the largest
    finite number [omega] (the operation neither underflows nor overflows),
    the error is at most [eps * |v|], where [eps] is the unit roundoff.
    [inRange] is that condition on an exact result, [roundsWithin] the error
    bound, and [inFormat] says that a real is a number of the format. *)

Definition inRange (lam omega v : R) : Prop :=
  (v = 0 \/ lam <= Rabs v <= omega)%R.

Definition roundsWithin (eps lam omega : R) (rnd : R -> R) : Prop :=
  forall v : R, inRange lam omega v -> (Rabs (rnd v - v) <= eps * Rabs v)%R.

Definition inFormat (rnd : R -> R) (v : R) : Prop := rnd v = v.

(** The parameters of binary64: unit roundoff 2^-53, smallest normal number
    2^-1022, largest finite number 2^1024 - 2^971. *)
Definition twoTo53 : Z := Eval cbv in 2 ^ 53.
Definition twoTo1022 : Z := Eval cbv in 2 ^ 1022.
Definition maxFinite : Z := Eval cbv in 2 ^ 1024 - 2 ^ 971.

Definition unitRoundoff : R := (/ IZR twoTo53)%R.
Definition smallestNormal : R := (/ IZR twoTo1022)%R.
Definition largestFinite : R := IZR maxFinite.

(** One axis of the coordinate mapper under [Rounded.number rnd], with
    bounds [lo] and [hi] and [size] pixels: the size of a pixel, the complex
    coordinate of pixel [p], and the pixel coordinate of [v] before
    [Math.round].  The [InRange] conditions list the exact results of the
    operations that [pixelToComplex], [complexToPixel], [panViewport] and
    [zoomAtPoint] carry out along the axis, in the order of the source. *)
Section Axis.
Local Open Scope R_scope.
Variables (rnd : R -> R) (lam omega : R).

Definition axisScale (lo hi size : R) : R := rnd (rnd (hi - lo) / size).

Definition axisForward (lo hi size p : R) : R :=
  rnd (lo + rnd (p * axisScale lo hi size)).

Definition axisBackward (lo hi size v : R) : R :=
  rnd (rnd (v - lo) * rnd (size / rnd (hi - lo))).

Definition scaleInRange (lo hi size : R) : Prop :=
  inRange lam omega (hi - lo) /\ inRange lam omega (rnd (hi - lo) / size).

Definition forwardInRange (lo hi size p : R) : Prop :=
  scaleInRange lo hi size /\
  inRange lam omega (p * axisScale lo hi size) /\
  inRange lam omega (lo + rnd (p * axisScale lo hi size)).

Definition backwardInRange (lo hi size v : R) : Prop :=
  inRange lam omega (hi - lo) /\
  inRange lam omega (v - lo) /\
  inRange lam omega (size / rnd (hi - lo)) /\
  inRange lam omega (rnd (v - lo) * rnd (size / rnd (hi - lo))).

(** [dd] is the pan distance in pixels. *)
Definition panInRange (lo hi size dd : R) : Prop :=
  scaleInRange lo hi size /\
  inRange lam omega (dd * axisScale lo hi size) /\
  inRange lam omega (lo - rnd (dd * axisScale lo hi size)) /\
  inRange lam omega (hi - rnd (dd * axisScale lo hi size)).

(** [z] is the zoom factor and [c] the centre; the new extent is
    [axisScale lo hi z], the rounded quotient of the extent by [z]. *)
Definition zoomInRange (lo hi z c : R) : Prop :=
  scaleInRange lo hi z /\
  inRange lam omega (axisScale lo hi z / 2) /\
  inRange lam omega (c - rnd (axisScale lo hi z / 2)) /\
  inRange lam omega (c + rnd (axisScale lo hi z / 2)).

End Axis.

(** A bound on the error, in pixels, of the map to the complex plane and
    back along one axis: it grows with the number of pixels and with the
    ratio of the magnitude of the bounds to the extent. *)
Definition mapTolerance (eps lo hi size : R) : R :=
  (18 * eps * size * (1 + Rmax (Rabs lo) (Rabs hi) / (hi - lo)))%R.

(** The four bounds of a viewport are numbers of the format. *)
Definition formatViewport (rnd : R -> R) (vp : Viewport R) : Prop :=
  inFormat rnd (xMin vp) /\ inFormat rnd (xMax vp) /\
  inFormat rnd (yMin vp) /\ inFormat rnd (yMax vp).

(** No operation of the call underflows or overflows. *)
Section ViewportRanges.
Local Open Scope R_scope.
Variables (rnd : R -> R) (lam omega : R).

Definition pixelToComplexInRange (px py w h : R) (vp : Viewport R) : Prop :=
  forwardInRange rnd lam omega (xMin vp) (xMax vp) w px /\
  forwardInRange rnd lam omega (yMin vp) (yMax vp) h py.

(** [complexToPixel] applied to the result of [pixelToComplex]. *)
Definition roundTripInRange (px py w h : R) (vp : Viewport R) : Prop :=
  pixelToComplexInRange px py w h vp /\
  backwardInRange rnd lam omega (xMin vp) (xMax vp) w
    (axisForward rnd (xMin vp) (xMax vp) w px) /\
  backwardInRange rnd lam omega (yMin vp) (yMax vp) h
    (axisForward rnd (yMin vp) (yMax vp) h py).

Definition createZoomViewportInRange (vp : Viewport R) (x1 y1 x2 y2 w h : R) : Prop :=
  pixelToComplexInRange (Rmin x1 x2) (Rmin y1 y2) w h vp /\
  pixelToComplexInRange (Rmax x1 x2) (Rmax y1 y2) w h vp.

Definition panViewportInRange (vp : Viewport R) (dx dy w h : R) : Prop :=
  panInRange rnd lam omega (xMin vp) (xMax vp) w dx /\
  panInRange rnd lam omega (yMin vp) (yMax vp) h dy.

Definition zoomAtPointInRange (vp : Viewport R) (cx cy z w h : R) : Prop :=
  pixelToComplexInRange cx cy w h vp /\
  zoomInRange rnd lam omega (xMin vp) (xMax vp) z
    (axisForward rnd (xMin vp) (xMax vp) w cx) /\
  zoomInRange rnd lam omega (yMin vp) (yMax vp) z
    (axisForward rnd (yMin vp) (yMax vp) h cy).

End ViewportRanges.

(** ** Vocabulary of the statements *)

(** A viewport is well ordered when both extents are positive. *)
Definition wellOrdered (v : Viewport R) : Prop :=
  (xMin v < xMax v)%R /\ (yMin v < yMax v)%R.

(** [inner] lies within the bounds of [outer]. *)
Definition withinBounds (inner outer : Viewport R) : Prop :=
  (xMin outer <= xMin inner)%R /\ (xMax inner <= xMax outer)%R /\
  (yMin outer <= yMin inner)%R /\ (yMax inner <= yMax outer)%R.

(** A colour channel that is an integer of [0, 255]. *)
Definition isByte (v : R) : Prop := exists n : Z, v = IZR n /\ 0 <= n <= 255.

(** ** The viewer (main.ts)

    [MandelbrotViewer] holds the state the event handlers read and write:
    the size of the canvas, the viewport, the render options, the drag in
    progress, the geometry and visibility of the selection rectangle and the
    image last put on the canvas.  An [Event] is a DOM event with the values
    the handler reads from it.  What the handlers only write as text (the
    text with the iteration count, the [px] suffix of the style values, the
    coordinate display) is not part of the state. *)

(** The two further operations of main.ts on numbers. *)
Class JsViewerMath (num : Type) : Type := {
  Math_abs : num -> num;
  num_ltb : num -> num -> bool      (* a < b *)
}.

#[global] Instance binary64ViewerMath : JsViewerMath float :=
  Build_JsViewerMath float PrimFloat.abs PrimFloat.ltb.

#[global] Instance exactViewerMath : JsViewerMath R :=
  Build_JsViewerMath R Rabs (fun a c => if Rlt_dec a c then true else false).

Record SelectionRect (num : Type) : Type := mkSelectionRect {
  rectLeft : num;
  rectTop : num;
  rectWidth : num;
  rectHeight : num
}.
Arguments mkSelectionRect {num}.
Arguments rectLeft {num}.
Arguments rectTop {num}.
Arguments rectWidth {num}.
Arguments rectHeight {num}.

Record MandelbrotViewer (num : Type) : Type := mkViewer {
  canvasWidth : Z;
  canvasHeight : Z;
  viewport : Viewport num;
  options : RenderOptions;
  isDragging : bool;
  dragStartX : num;
  dragStartY : num;
  selectionVisible : bool;
  selectionRect : SelectionRect num;
  canvasImage : option ImageData
}.
Arguments mkViewer {num}.
Arguments canvasWidth {num}.
Arguments canvasHeight {num}.
Arguments viewport {num}.
Arguments options {num}.
Arguments isDragging {num}.
Arguments dragStartX {num}.
Arguments dragStartY {num}.
Arguments selectionVisible {num}.
Arguments selectionRect {num}.
Arguments canvasImage {num}.

Inductive Event (num : Type) : Type :=
| ColorSchemeChange (value : string)
| IterationsInput (value : Z)          (* the slider value, parsed *)
| ResetClick
| ZoomInClick
| ZoomOutClick
| PanUpClick
| PanDownClick
| PanLeftClick
| PanRightClick
| MouseDown (offsetX offsetY : num)
| MouseMove (offsetX offsetY : num)
| MouseUp (offsetX offsetY : num)
| MouseLeave
| DblClick (offsetX offsetY : num)
| Wheel (offsetX offsetY deltaY : num).
Arguments ColorSchemeChange {num}.
Arguments IterationsInput {num}.
Arguments ResetClick {num}.
Arguments ZoomInClick {num}.
Arguments ZoomOutClick {num}.
Arguments PanUpClick {num}.
Arguments PanDownClick {num}.
Arguments PanLeftClick {num}.
Arguments PanRightClick {num}.
Arguments MouseDown {num}.
Arguments MouseMove {num}.
Arguments MouseUp {num}.
Arguments MouseLeave {num}.
Arguments DblClick {num}.
Arguments Wheel {num}.

Section ViewerProgram.
Context {num : Type} {N : JsNumber num} {T : JsTrig num} {M : JsViewerMath num}.
Local Open Scope js_scope.

Definition setViewport (v : MandelbrotViewer num) (vp : Viewport num) :
    MandelbrotViewer num :=
  mkViewer (canvasWidth v) (canvasHeight v) vp (options v) (isDragging v)
    (dragStartX v) (dragStartY v) (selectionVisible v) (selectionRect v)
    (canvasImage v).

Definition setOptions (v : MandelbrotViewer num) (o : RenderOptions) :
    MandelbrotViewer num :=
  mkViewer (canvasWidth v) (canvasHeight v) (viewport v) o (isDragging v)
    (dragStartX v) (dragStartY v) (selectionVisible v) (selectionRect v)
    (canvasImage v).

(** [render]: the frame of the current viewport and options is put on the
    canvas; when [renderMandelbrot] throws, the canvas keeps its image. *)
Definition render (v : MandelbrotViewer num) : MandelbrotViewer num :=
  match renderMandelbrot (canvasWidth v) (canvasHeight v) (viewport v) (options v) with
  | Some imageData =>
      mkViewer (canvasWidth v) (canvasHeight v) (viewport v) (options v)
        (isDragging v) (dragStartX v) (dragStartY v) (selectionVisible v)
        (selectionRect v) (Some imageData)
  | None => v
  end.

Definition updateSelectionRect (v : MandelbrotViewer num) (x1 y1 x2 y2 : num) :
    MandelbrotViewer num :=
  let left := Math_min x1 x2 in
  let top := Math_min y1 y2 in
  let width := Math_abs (x2 - x1) in
  let height := Math_abs (y2 - y1) in
  mkViewer (canvasWidth v) (canvasHeight v) (viewport v) (options v)
    (isDragging v) (dragStartX v) (dragStartY v) (selectionVisible v)
    (mkSelectionRect left top width height) (canvasImage v).

(** The end of a drag: [isDragging = false] and the rectangle hidden. *)
Definition endDrag (v : MandelbrotViewer num) : MandelbrotViewer num :=
  mkViewer (canvasWidth v) (canvasHeight v) (viewport v) (options v)
    false (dragStartX v) (dragStartY v) false (selectionRect v) (canvasImage v).

(** The literal 0.5, the exact quotient 1/2. *)
Definition oneHalf : num := lit 1 / lit 2.

Definition panAmount : Z := 50.
Definition minSize : Z := 10.

(** The constructor: the default viewport, 100 iterations, the fire scheme,
    no drag, and a first [render].  The size of the canvas and the style of
    the selection rectangle come from the page. *)
Definition newViewer (canvasWidth canvasHeight : Z) (visible : bool)
    (rect : SelectionRect num) : MandelbrotViewer num :=
  render (mkViewer canvasWidth canvasHeight getDefaultViewport
            (mkRenderOptions 100 "fire") false (lit 0) (lit 0) visible rect None).

(** The handler of each event. *)
Definition handle (v : MandelbrotViewer num) (e : Event num) : MandelbrotViewer num :=
  let w := lit (canvasWidth v) in
  let h := lit (canvasHeight v) in
  match e with
  | ColorSchemeChange value =>
      render (setOptions v (mkRenderOptions (maxIterations (options v)) value))
  | IterationsInput value =>
      render (setOptions v (mkRenderOptions value (colorScheme (options v))))
  | ResetClick =>
      render (setOptions (setViewport v getDefaultViewport)
                (mkRenderOptions 100 (colorScheme (options v))))
  | ZoomInClick =>
      render (setViewport v
                (zoomAtPoint (viewport v) (w / lit 2) (h / lit 2) (lit 2) w h))
  | ZoomOutClick =>
      render (setViewport v
                (zoomAtPoint (viewport v) (w / lit 2) (h / lit 2) oneHalf w h))
  | PanUpClick =>
      render (setViewport v (panViewport (viewport v) (lit 0) (lit (- panAmount)) w h))
  | PanDownClick =>
      render (setViewport v (panViewport (viewport v) (lit 0) (lit panAmount) w h))
  | PanLeftClick =>
      render (setViewport v (panViewport (viewport v) (lit (- panAmount)) (lit 0) w h))
  | PanRightClick =>
      render (setViewport v (panViewport (viewport v) (lit panAmount) (lit 0) w h))
  | MouseDown offsetX offsetY =>
      updateSelectionRect
        (mkViewer (canvasWidth v) (canvasHeight v) (viewport v) (options v)
           true offsetX offsetY true (selectionRect v) (canvasImage v))
        offsetX offsetY offsetX offsetY
  | MouseMove offsetX offsetY =>
      if isDragging v
      then updateSelectionRect v (dragStartX v) (dragStartY v) offsetX offsetY
      else v
  | MouseUp offsetX offsetY =>
      if isDragging v then
        let v' := endDrag v in
        if (lit minSize <=? Math_abs (offsetX - dragStartX v))
           && (lit minSize <=? Math_abs (offsetY - dragStartY v))
        then render (setViewport v'
                       (createZoomViewport (viewport v) (dragStartX v) (dragStartY v)
                          offsetX offsetY w h))
        else v'
      else v
  | MouseLeave => if isDragging v then endDrag v else v
  | DblClick offsetX offsetY =>
      render (setViewport v (zoomAtPoint (viewport v) offsetX offsetY (lit 2) w h))
  | Wheel offsetX offsetY deltaY =>
      let zoomFactor := if num_ltb (lit 0) deltaY then oneHalf else lit 2 in
      render (setViewport v (zoomAtPoint (viewport v) offsetX offsetY zoomFactor w h))
  end.

(** The viewer after a sequence of events. *)
Definition run (v : MandelbrotViewer num) (events : list (Event num)) :
    MandelbrotViewer num :=
  foldl handle v events.

End ViewerProgram.

(** The canvas shows the frame of the current viewport and options. *)
Definition canvasFresh {num : Type} {N : JsNumber num} {T : JsTrig num}
    (w h : Z) (v : MandelbrotViewer num) : Prop :=
  canvasWidth v = w /\ canvasHeight v = h /\
  canvasImage v = renderMandelbrot w h (viewport v) (options v).

(** Two binary64 values are the same number: identical, or equal under
    [===] (which also identifies +0 and -0). *)
Definition sameNumber (a c : float) : Prop := a = c \/ (a =? c)%float = true.

(** * The escape-time evaluator *)

Section EscapeTime.
Context {num : Type} {N : JsNumber num}.
Local Open Scope js_scope.

(** The loop never counts past the limit. *)
Lemma mandelbrotLoop_bounds fuel cx cy m x0 y0 i :
  i <= mandelbrotLoop fuel cx cy m x0 y0 i <= Z.max i m.
Proof.
  revert x0 y0 i. induction fuel as [|fuel IH]; intros x0 y0 i; simpl.
  - lia.
  - destruct (x0 * x0 + y0 * y0 <=? lit 4); simpl; [|lia].
    destruct (Z.ltb_spec i m); [|lia].
    specialize (IH (x0 * x0 - y0 * y0 + cx) (lit 2 * x0 * y0 + cy) (i + 1)%Z).
    lia.
Qed.

(** Fuel beyond [maxIterations - iteration] is never used: the model is
    the loop, not a truncation of it. *)
Lemma mandelbrotLoop_fuel fuel cx cy m x0 y0 i :
  (Z.to_nat (m - i) <= fuel)%nat ->
  mandelbrotLoop fuel cx cy m x0 y0 i =
  mandelbrotLoop (Z.to_nat (m - i)) cx cy m x0 y0 i.
Proof.
  revert x0 y0 i. induction fuel as [|fuel IH]; intros x0 y0 i Hf.
  - replace (Z.to_nat (m - i)) with O by lia. reflexivity.
  - destruct (Z.ltb_spec i m) as [Hlt|Hge].
    + replace (Z.to_nat (m - i)) with (S (Z.to_nat (m - (i + 1)))) by lia.
      simpl. destruct (x0 * x0 + y0 * y0 <=? lit 4); simpl; [|reflexivity].
      destruct (Z.ltb_spec i m); [|lia].
      apply IH. lia.
    + replace (Z.to_nat (m - i)) with O by lia. simpl.
      destruct (Z.ltb_spec i m); [lia|].
      now rewrite andb_false_r.
Qed.

Lemma calculateMandelbrot_range cx cy m :
  0 <= calculateMandelbrot cx cy m <= Z.max 0 m.
Proof. apply mandelbrotLoop_bounds. Qed.

(** A point whose orbit stays at the start value runs to the limit. *)
Lemma mandelbrotLoop_fixed cx cy m x0 y0 :
  (x0 * x0 + y0 * y0 <=? lit 4) = true ->
  x0 * x0 - y0 * y0 + cx = x0 ->
  lit 2 * x0 * y0 + cy = y0 ->
  forall fuel i, i <= m -> (Z.to_nat (m - i) <= fuel)%nat ->
  mandelbrotLoop fuel cx cy m x0 y0 i = m.
Proof.
  intros Hin Hx Hy. induction fuel as [|fuel IH]; intros i Hi Hf; simpl.
  - lia.
  - rewrite Hin. simpl. destruct (Z.ltb_spec i m); [|lia].
    rewrite Hx, Hy. apply IH; lia.
Qed.

(** C9: a non-positive iteration limit performs no iteration and the
    evaluator returns 0, for every point [(cx, cy)]; the same holds for the
    loop whatever fuel it is given. *)
Theorem calculateMandelbrot_nonpositive_limit (cx cy : num) (m : Z) :
  m <= 0 ->
  calculateMandelbrot cx cy m = 0 /\
  forall fuel, mandelbrotLoop fuel cx cy m (lit 0) (lit 0) 0 = 0.
Proof.
  intros Hm.
  assert (Hloop : forall fuel, mandelbrotLoop fuel cx cy m (lit 0) (lit 0) 0 = 0).
  { intros [|fuel]; simpl; [reflexivity|].
    destruct (Z.ltb_spec 0 m); [lia|]. now rewrite andb_false_r. }
  split; [apply Hloop | exact Hloop].
Qed.

End EscapeTime.

Lemma calculateMandelbrot_nonpositive_limit_witness :
  -3 <= 0 /\
  calculateMandelbrot (N := Binary64.number) 0.25%float (-0.5)%float (-3) = 0.
Proof.
  split; [lia|].
  apply (calculateMandelbrot_nonpositive_limit (N := Binary64.number)
           0.25%float (-0.5)%float (-3)).
  lia.
Defined.

(** C1: the origin never escapes: for every limit [maxIterations >= 1] the
    evaluator, run on binary64 numbers, returns exactly [maxIterations]
    for the point (0, 0). *)
Theorem calculateMandelbrot_origin (m : Z) :
  1 <= m ->
  calculateMandelbrot (N := Binary64.number) 0%float 0%float m = m.
Proof.
  intros Hm. unfold calculateMandelbrot.
  apply mandelbrotLoop_fixed; try reflexivity; lia.
Qed.

Lemma calculateMandelbrot_origin_witness :
  1 <= 100 /\ calculateMandelbrot (N := Binary64.number) 0%float 0%float 100 = 100.
Proof.
  split; [lia|]. apply (calculateMandelbrot_origin 100). lia.
Defined.

(** * The colour mapper *)

(** C6: a point that reached the limit is black, (0, 0, 0), whatever the
    scheme selector is (one of the three names or any other string) and
    whatever the limit is. *)
Theorem getColor_limit_is_black {num : Type} {N : JsNumber num} {T : JsTrig num}
    (maxIterations : Z) (scheme : string) :
  getColor maxIterations maxIterations scheme = mkColor (lit 0) (lit 0) (lit 0).
Proof.
  unfold getColor. now rewrite Z.eqb_refl.
Qed.

(** * The frame renderer *)

Section Concat.
Context {A : Type} (f : Z -> list A) (sz : nat).
Hypothesis f_length : forall i, length (f i) = sz.

Lemma length_concat_blocks (n : nat) (a : Z) :
  length (concat (map f (seqZ a (Z.of_nat n)))) = (n * sz)%nat.
Proof.
  revert a. induction n as [|n IH]; intros a; [reflexivity|].
  rewrite seqZ_cons by lia.
  replace (Z.pred (Z.of_nat (S n))) with (Z.of_nat n) by lia.
  simpl. rewrite length_app, f_length, IH. lia.
Qed.

Lemma lookup_concat_blocks (n : nat) :
  forall (a : Z) (i o : nat), (i < n)%nat -> (o < sz)%nat ->
  concat (map f (seqZ a (Z.of_nat n))) !! (i * sz + o)%nat = f (a + Z.of_nat i) !! o.
Proof.
  induction n as [|n IH]; intros a i o Hi Ho; [lia|].
  rewrite seqZ_cons by lia.
  replace (Z.pred (Z.of_nat (S n))) with (Z.of_nat n) by lia.
  simpl. destruct i as [|i].
  - rewrite lookup_app_l by (rewrite f_length; lia).
    simpl. now rewrite Z.add_0_r.
  - rewrite lookup_app_r by (rewrite f_length; lia).
    rewrite f_length.
    replace (S i * sz + o - sz)%nat with (i * sz + o)%nat by lia.
    rewrite IH by lia. f_equal. f_equal. lia.
Qed.

End Concat.

Section Renderer.
Context {num : Type} {N : JsNumber num} {T : JsTrig num}.
Variables (w h : Z) (viewport : Viewport num) (options : RenderOptions).

Local Abbreviation pixelBytes := (pixelBytes w h viewport options).
Local Abbreviation pixelColor := (pixelColor w h viewport options).
Local Abbreviation rowBytes := (rowBytes w h viewport options).

Lemma store_at (pre rest : list Z) (k : nat) (index v : Z) :
  index = Z.of_nat (length pre + k) ->
  store (pre ++ rest) index v = pre ++ <[k := v]> rest.
Proof.
  intros ->. unfold store.
  destruct (Z.ltb_spec (Z.of_nat (length pre + k)) 0); [lia|].
  rewrite Nat2Z.id. apply insert_app_r.
Qed.

Lemma renderPixel_fill (py px : Z) (pre rest : list Z) (a0 a1 a2 a3 : Z) :
  Z.of_nat (length pre) = (py * w + px) * 4 ->
  renderPixel w h viewport options py px (pre ++ a0 :: a1 :: a2 :: a3 :: rest)
  = pre ++ pixelBytes py px ++ rest.
Proof.
  intros Hlen. unfold renderPixel.
  rewrite (store_at pre _ 0) by lia. simpl.
  rewrite (store_at pre _ 1) by lia. simpl.
  rewrite (store_at pre _ 2) by lia. simpl.
  rewrite (store_at pre _ 3) by lia. reflexivity.
Qed.

Lemma renderRow_fill_from (py : Z) (n : nat) :
  forall (px0 : Z) (pre rest : list Z),
  Z.of_nat (length pre) = (py * w + px0) * 4 ->
  foldl (fun d px => renderPixel w h viewport options py px d)
        (pre ++ replicate (n * 4) 0 ++ rest) (seqZ px0 (Z.of_nat n))
  = pre ++ concat (map (pixelBytes py) (seqZ px0 (Z.of_nat n))) ++ rest.
Proof.
  induction n as [|n IH]; intros px0 pre rest Hlen; [reflexivity|].
  rewrite seqZ_cons by lia.
  replace (Z.pred (Z.of_nat (S n))) with (Z.of_nat n) by lia.
  cbn [foldl map concat]. change (S n * 4)%nat with (4 + n * 4)%nat.
  rewrite replicate_add. cbn [replicate app].
  rewrite renderPixel_fill by exact Hlen.
  change (pixelBytes py px0 ++ replicate (n * 4) 0 ++ rest)
    with ([ToUint8Clamp (r (pixelColor py px0)); ToUint8Clamp (g (pixelColor py px0));
           ToUint8Clamp (b (pixelColor py px0)); 255] ++ replicate (n * 4) 0 ++ rest).
  rewrite (app_assoc pre). rewrite IH.
  - rewrite <- !app_assoc. reflexivity.
  - rewrite length_app. simpl. lia.
Qed.

Lemma length_pixelBytes (py px : Z) : length (pixelBytes py px) = 4%nat.
Proof. reflexivity. Qed.

Lemma length_rowBytes (py : Z) : length (rowBytes py) = (Z.to_nat w * 4)%nat.
Proof.
  unfold rowBytes. destruct (Z.le_gt_cases 0 w) as [Hw|Hw].
  - pose proof (length_concat_blocks (pixelBytes py) 4 (length_pixelBytes py)
                  (Z.to_nat w) 0) as Hl.
    rewrite Z2Nat.id in Hl by lia. exact Hl.
  - rewrite seqZ_nil by lia. replace (Z.to_nat w) with O by lia. reflexivity.
Qed.

Lemma renderRow_fill (py : Z) (pre rest : list Z) :
  0 <= w ->
  Z.of_nat (length pre) = py * w * 4 ->
  renderRow w h viewport options (pre ++ replicate (Z.to_nat w * 4) 0 ++ rest) py
  = pre ++ rowBytes py ++ rest.
Proof.
  intros Hw Hlen. unfold renderRow, rowBytes.
  pose proof (renderRow_fill_from py (Z.to_nat w) 0 pre rest) as Hfill.
  rewrite Z2Nat.id in Hfill by lia. apply Hfill. lia.
Qed.

Lemma renderRows_fill (n : nat) :
  0 <= w ->
  forall (py0 : Z) (pre : list Z),
  Z.of_nat (length pre) = py0 * w * 4 ->
  foldl (renderRow w h viewport options)
        (pre ++ replicate (n * (Z.to_nat w * 4)) 0) (seqZ py0 (Z.of_nat n))
  = pre ++ concat (map rowBytes (seqZ py0 (Z.of_nat n))).
Proof.
  intros Hw. induction n as [|n IH]; intros py0 pre Hlen.
  - reflexivity.
  - rewrite seqZ_cons by lia.
    replace (Z.pred (Z.of_nat (S n))) with (Z.of_nat n) by lia.
    cbn [foldl map concat].
    change (S n * (Z.to_nat w * 4))%nat
      with (Z.to_nat w * 4 + n * (Z.to_nat w * 4))%nat.
    rewrite replicate_add, renderRow_fill by assumption.
    rewrite (app_assoc pre), IH.
    + now rewrite <- app_assoc.
    + rewrite length_app, length_rowBytes. lia.
Qed.

(** The buffer the renderer returns, in closed form. *)
Lemma renderMandelbrot_data :
  0 < w -> 0 < h ->
  renderMandelbrot w h viewport options
  = Some (mkImageData w h (concat (map rowBytes (seqZ 0 h)))).
Proof.
  intros Hw Hh. unfold renderMandelbrot.
  destruct (Z.ltb_spec 0 w); [|lia]. destruct (Z.ltb_spec 0 h); [|lia].
  cbn [andb]. do 2 f_equal.
  replace (Z.to_nat (w * h * 4)) with (Z.to_nat h * (Z.to_nat w * 4))%nat by nia.
  pose proof (renderRows_fill (Z.to_nat h) ltac:(lia) 0 []) as Hfill.
  rewrite Z2Nat.id in Hfill by lia. apply Hfill. simpl. lia.
Qed.

Lemma lookup_rendered (px py : Z) (k : nat) :
  0 <= px < w -> 0 <= py < h -> (k < 4)%nat ->
  concat (map rowBytes (seqZ 0 h)) !! Z.to_nat ((py * w + px) * 4 + Z.of_nat k)
  = pixelBytes py px !! k.
Proof.
  intros Hpx Hpy Hk.
  replace (Z.to_nat ((py * w + px) * 4 + Z.of_nat k))
    with (Z.to_nat py * (Z.to_nat w * 4) + (Z.to_nat px * 4 + k))%nat by nia.
  pose proof (lookup_concat_blocks rowBytes (Z.to_nat w * 4) length_rowBytes
                (Z.to_nat h) 0 (Z.to_nat py) (Z.to_nat px * 4 + k)) as Hrow.
  rewrite !Z2Nat.id in Hrow by lia. rewrite Hrow by nia. clear Hrow.
  pose proof (lookup_concat_blocks (pixelBytes (0 + Z.of_nat (Z.to_nat py))) 4
                (length_pixelBytes _) (Z.to_nat w) 0 (Z.to_nat px) k) as Hpix.
  rewrite !Z2Nat.id in Hpix by lia. unfold rowBytes. rewrite Hpix by lia.
  reflexivity.
Qed.

End Renderer.

(** C8: for positive [w] and [h] the renderer returns a buffer of exactly
    [w * h * 4] bytes; every fourth byte (offset 3 of each pixel) is 255; and
    for each pixel [(px, py)] the bytes at offsets 0, 1, 2 of
    [(py * w + px) * 4] hold the R, G, B channels of [getColor] applied to the
    escape count of [pixelToComplex px py], as the byte array stores them. *)
Theorem renderMandelbrot_buffer {num : Type} {N : JsNumber num} {T : JsTrig num}
    (w h : Z) (viewport : Viewport num) (options : RenderOptions) :
  0 < w -> 0 < h ->
  exists image : ImageData,
    renderMandelbrot w h viewport options = Some image /\
    length (data image) = Z.to_nat (w * h * 4) /\
    (forall i : nat, (i < length (data image))%nat -> (i mod 4 = 3)%nat ->
       data image !! i = Some 255) /\
    (forall px py : Z, 0 <= px < w -> 0 <= py < h ->
       let c := pixelToComplex (lit px) (lit py) (lit w) (lit h) viewport in
       let iteration :=
         calculateMandelbrot (real c) (imaginary c) (maxIterations options) in
       let color :=
         getColor iteration (maxIterations options) (colorScheme options) in
       let index := (py * w + px) * 4 in
       data image !! Z.to_nat index = Some (ToUint8Clamp (r color)) /\
       data image !! Z.to_nat (index + 1) = Some (ToUint8Clamp (g color)) /\
       data image !! Z.to_nat (index + 2) = Some (ToUint8Clamp (b color)) /\
       data image !! Z.to_nat (index + 3) = Some 255).
Proof.
  intros Hw Hh. eexists. split; [apply renderMandelbrot_data; assumption|].
  cbn [data].
  assert (Hlen : length (concat (map (rowBytes w h viewport options) (seqZ 0 h)))
                 = Z.to_nat (w * h * 4)).
  { pose proof (length_concat_blocks (rowBytes w h viewport options)
                  (Z.to_nat w * 4) (length_rowBytes w h viewport options)
                  (Z.to_nat h) 0) as Hl.
    rewrite Z2Nat.id in Hl by lia. rewrite Hl. nia. }
  split; [exact Hlen|]. split.
  - intros i Hi Hmod. rewrite Hlen in Hi.
    pose proof (Nat.div_mod_eq i 4) as Hdm. rewrite Hmod in Hdm.
    set (q := Z.of_nat (i / 4)) in *.
    assert (Hq : 0 <= q < w * h) by (unfold q; nia).
    pose proof (Z.div_mod q w ltac:(lia)) as Hqw.
    pose proof (Z.mod_pos_bound q w Hw) as Hmodw.
    assert (Hdiv : 0 <= q / w < h).
    { split; [apply Z.div_pos; lia|].
      apply Z.div_lt_upper_bound; lia. }
    pose proof (lookup_rendered w h viewport options (q mod w) (q / w) 3
                  Hmodw Hdiv ltac:(lia)) as Hlk.
    replace (Z.to_nat ((q / w * w + q mod w) * 4 + Z.of_nat 3)) with i in Hlk
      by (unfold q in *; lia).
    exact Hlk.
  - intros px py Hpx Hpy.
    pose proof (lookup_rendered w h viewport options px py) as Hlk.
    cbv zeta. repeat split.
    + replace (Z.to_nat ((py * w + px) * 4))
        with (Z.to_nat ((py * w + px) * 4 + Z.of_nat 0)) by lia.
      exact (Hlk 0%nat Hpx Hpy ltac:(lia)).
    + exact (Hlk 1%nat Hpx Hpy ltac:(lia)).
    + exact (Hlk 2%nat Hpx Hpy ltac:(lia)).
    + exact (Hlk 3%nat Hpx Hpy ltac:(lia)).
Qed.

Lemma renderMandelbrot_buffer_witness :
  0 < 3 /\ 0 < 2 /\
  exists image : ImageData,
    renderMandelbrot (N := Exact.number) 3 2 getDefaultViewport
      (mkRenderOptions 100 "fire") = Some image /\
    length (data image) = 24%nat.
Proof.
  split; [lia|]. split; [lia|].
  destruct (renderMandelbrot_buffer (N := Exact.number) 3 2 getDefaultViewport
              (mkRenderOptions 100 "fire") ltac:(lia) ltac:(lia))
    as (image & Himage & Hlen & _).
  exists image. split; [exact Himage | exact Hlen].
Defined.

(** * Colour channels over the reals *)

Section ExactChannels.
Local Open Scope R_scope.

Lemma Int_part_bounds (v : R) : IZR (Int_part v) <= v < IZR (Int_part v) + 1.
Proof. destruct (base_Int_part v). lra. Qed.

Lemma Int_part_IZR (n : Z) : Int_part (IZR n) = n.
Proof. symmetry. apply Int_part_spec. lra. Qed.

Lemma isByte_IZR (n : Z) : (0 <= n <= 255)%Z -> isByte (IZR n).
Proof. intros Hn. exists n. split; [reflexivity | exact Hn]. Qed.

Lemma isByte_floor (v : R) : 0 <= v < 256 -> isByte (Exact.Math_floor v).
Proof.
  intros [Hlo Hhi]. apply isByte_IZR.
  destruct (Int_part_bounds v) as [Hle Hlt].
  assert (Hlo' : IZR (-1) < IZR (Int_part v)) by lra.
  assert (Hhi' : IZR (Int_part v) < IZR 256) by lra.
  apply lt_IZR in Hlo', Hhi'. lia.
Qed.

Lemma clamp255_IZR (n : Z) :
  clamp255 (N := Exact.number) (IZR n) = IZR (Z.max 0 (Z.min 255 n)).
Proof.
  unfold clamp255. simpl. unfold Rmax, Rmin.
  destruct (Rle_dec 255 (IZR n)) as [H1|H1].
  - apply le_IZR in H1. rewrite Z.min_l by lia. rewrite Z.max_r by lia.
    destruct (Rle_dec 0 255); [reflexivity | lra].
  - assert (H1' : (n < 255)%Z) by (apply lt_IZR; lra).
    rewrite Z.min_r by lia.
    destruct (Rle_dec 0 (IZR n)) as [H2|H2].
    + apply le_IZR in H2. now rewrite Z.max_r by lia.
    + assert (H2' : (n < 0)%Z) by (apply lt_IZR; lra).
      now rewrite Z.max_l by lia.
Qed.

Lemma isByte_clamp255_IZR (n : Z) : isByte (clamp255 (N := Exact.number) (IZR n)).
Proof. rewrite clamp255_IZR. apply isByte_IZR. lia. Qed.

Lemma isByte_clamp255_floor (v : R) :
  isByte (clamp255 (N := Exact.number) (Math_floor v)).
Proof. apply isByte_clamp255_IZR. Qed.

(** A byte-valued channel is stored in the byte array unchanged. *)
Lemma ToUint8Clamp_byte (n : Z) :
  (0 <= n <= 255)%Z -> Exact.ToUint8Clamp (IZR n) = n.
Proof.
  intros Hn. unfold Exact.ToUint8Clamp.
  destruct (Rle_dec (IZR n) 0) as [H0|H0].
  - apply le_IZR in H0. lia.
  - destruct (Rle_dec 255 (IZR n)) as [H1|H1].
    + apply le_IZR in H1. lia.
    + rewrite Int_part_IZR.
      destruct (Rlt_dec (IZR n + / 2) (IZR n)) as [H2|H2]; [lra|].
      destruct (Rlt_dec (IZR n) (IZR n + / 2)) as [H3|H3]; [reflexivity | lra].
Qed.

End ExactChannels.

(** * Colour channels under an arbitrary rounding *)

Section RoundedChannels.
Local Open Scope R_scope.
Variables (rnd host_sin : R -> R).
Hypothesis rnd_monotone : monotone rnd.
Hypothesis rnd_bytes : fixesBytes rnd.

Lemma rnd_between (lo hi : Z) (v : R) :
  (0 <= lo <= 255)%Z -> (0 <= hi <= 255)%Z ->
  IZR lo <= v <= IZR hi -> IZR lo <= rnd v <= IZR hi.
Proof.
  intros Hlo Hhi [Hl Hh].
  split.
  - rewrite <- (rnd_bytes lo Hlo). now apply rnd_monotone.
  - rewrite <- (rnd_bytes hi Hhi). now apply rnd_monotone.
Qed.

Lemma isByte_clamp255_rounded (n : Z) :
  isByte (clamp255 (N := Rounded.number rnd) (IZR n)).
Proof.
  unfold clamp255. cbn [of_Z Math_max Math_min Rounded.number].
  rewrite (rnd_bytes 0%Z), (rnd_bytes 255%Z) by lia.
  exact (isByte_clamp255_IZR n).
Qed.

Lemma isByte_clamp255_lit (n : Z) :
  (0 <= n <= 255)%Z ->
  isByte (clamp255 (N := Rounded.number rnd) (of_Z (JsNumber := Rounded.number rnd) n)).
Proof.
  intros Hn. cbn [of_Z Rounded.number]. rewrite (rnd_bytes n Hn).
  apply isByte_clamp255_rounded.
Qed.

(** The normalised depth [t = iteration / maxIterations] lies in [0, 1]. *)
Lemma depth_range_rounded (iteration maxIterations : Z) :
  (1 <= maxIterations)%Z -> (0 <= iteration <= maxIterations)%Z ->
  0 <= rnd (rnd (IZR iteration) / rnd (IZR maxIterations)) <= 1.
Proof.
  intros Hm [Hi0 Him].
  assert (Ha : 0 <= rnd (IZR iteration)).
  { rewrite <- (rnd_bytes 0%Z) by lia. apply rnd_monotone, IZR_le. lia. }
  assert (Hb : 1 <= rnd (IZR maxIterations)).
  { rewrite <- (rnd_bytes 1%Z) by lia. apply rnd_monotone, IZR_le. lia. }
  assert (Hab : rnd (IZR iteration) <= rnd (IZR maxIterations)).
  { apply rnd_monotone, IZR_le. lia. }
  apply (rnd_between 0%Z 1%Z); try lia.
  set (a := rnd (IZR iteration)) in *. set (c := rnd (IZR maxIterations)) in *.
  assert (Hc : 0 < / c) by (apply Rinv_0_lt_compat; lra).
  split.
  - apply Rmult_le_pos; lra.
  - apply Rmult_le_reg_r with c; [lra|].
    unfold Rdiv. rewrite Rmult_assoc, Rinv_l by lra. lra.
Qed.

(** The channels are bytes as soon as the normalised depth lies in [0, 1]. *)
Lemma getColor_bytes_of_depth (scheme : string) (iteration maxIterations : Z) :
  iteration = maxIterations \/
  0 <= rnd (rnd (IZR iteration) / rnd (IZR maxIterations)) <= 1 ->
  let c := getColor (N := Rounded.number rnd) (T := Rounded.trig host_sin)
             iteration maxIterations scheme in
  isByte (r c) /\ isByte (g c) /\ isByte (b c).
Proof.
  intros Hdepth. unfold getColor.
  destruct (Z.eqb_spec iteration maxIterations) as [Heq|Hne].
  { unfold black. cbn [r g b of_Z Rounded.number].
    rewrite (rnd_bytes 0%Z) by lia. repeat split; apply isByte_IZR; lia. }
  destruct Hdepth as [Heq|Ht]; [contradiction|].
  cbv zeta.
  destruct (String.eqb scheme "grayscale").
  { cbn [r g b of_Z num_mul num_sub num_div Math_floor Rounded.number].
    rewrite (rnd_bytes 255%Z), (rnd_bytes 1%Z) by lia.
    set (t := rnd (rnd (IZR iteration) / rnd (IZR maxIterations))) in *.
    assert (Hu : 0 <= rnd (1 - t) <= 1)
      by (apply (rnd_between 0%Z 1%Z); try lia; lra).
    assert (Hv : 0 <= rnd (255 * rnd (1 - t)) <= 255)
      by (apply (rnd_between 0%Z 255%Z); try lia; lra).
    repeat split; apply isByte_floor; lra. }
  destruct (String.eqb scheme "rainbow").
  { cbn [r g b]. repeat split; apply isByte_clamp255_rounded. }
  destruct (String.eqb scheme "fire").
  { repeat match goal with
           | |- context [if ?c then _ else _] => destruct c
           end;
    cbn [r g b]; repeat split;
    first [apply isByte_clamp255_rounded | apply isByte_clamp255_lit; lia]. }
  unfold black. cbn [r g b of_Z Rounded.number].
  rewrite (rnd_bytes 0%Z) by lia. repeat split; apply isByte_IZR; lia.
Qed.

(** C7: for each of the schemes grayscale, rainbow and fire, and for any
    other selector, every limit [maxIterations >= 1] and every integer
    [0 <= iteration <= maxIterations], each of the three channels of
    [getColor] is an integer of [0, 255].  This holds whatever the rounding
    of the arithmetic is, provided it is monotone and leaves the integers of
    [0, 255] as they are, and whatever the host's [Math.sin] returns. *)
Theorem getColor_channels_are_bytes (scheme : string) (iteration maxIterations : Z) :
  (1 <= maxIterations)%Z -> (0 <= iteration <= maxIterations)%Z ->
  let c := getColor (N := Rounded.number rnd) (T := Rounded.trig host_sin)
             iteration maxIterations scheme in
  isByte (r c) /\ isByte (g c) /\ isByte (b c).
Proof.
  intros Hm Hi. apply getColor_bytes_of_depth.
  destruct (Z.eq_dec iteration maxIterations) as [Heq|Hne].
  - left. exact Heq.
  - right. apply depth_range_rounded; assumption.
Qed.

(** The colour of every pixel of a frame has byte channels, whatever the
    render options are: they are stored in the buffer unchanged. *)
Lemma pixelColor_bytes (w h : Z) (viewport : Viewport R) (options : RenderOptions)
    (py px : Z) :
  let c := pixelColor (N := Rounded.number rnd) (T := Rounded.trig host_sin)
             w h viewport options py px in
  isByte (r c) /\ isByte (g c) /\ isByte (b c).
Proof.
  unfold pixelColor. cbv zeta.
  set (cx := real _). set (cy := imaginary _).
  pose proof (calculateMandelbrot_range (N := Rounded.number rnd)
                cx cy (maxIterations options)) as Hrange.
  set (iteration := calculateMandelbrot cx cy (maxIterations options)) in *.
  apply getColor_bytes_of_depth.
  destruct (Z.le_gt_cases 1 (maxIterations options)) as [Hm|Hm].
  - right. apply depth_range_rounded; lia.
  - assert (Hzero : iteration = 0%Z) by lia.
    destruct (Z.eq_dec (maxIterations options) 0%Z) as [Hm0|Hm0]; [left; lia|].
    right. rewrite Hzero, (rnd_bytes 0%Z) by lia.
    unfold Rdiv. rewrite Rmult_0_l, (rnd_bytes 0%Z) by lia. lra.
Qed.

Lemma stored_channel (v : R) : isByte v -> IZR (Exact.ToUint8Clamp v) = v.
Proof. intros (n & -> & Hn). now rewrite ToUint8Clamp_byte. Qed.

Lemma pixelBytes_are_channels (w h : Z) (viewport : Viewport R)
    (options : RenderOptions) (py px : Z) :
  let c := pixelColor (N := Rounded.number rnd) (T := Rounded.trig host_sin)
             w h viewport options py px in
  map IZR (pixelBytes (N := Rounded.number rnd) (T := Rounded.trig host_sin)
             w h viewport options py px)
  = [r c; g c; b c; 255].
Proof.
  destruct (pixelColor_bytes w h viewport options py px) as (Hr & Hg & Hb).
  unfold pixelBytes. cbn [map ToUint8Clamp Rounded.number].
  now rewrite !stored_channel by assumption.
Qed.

End RoundedChannels.

(** On binary64 numbers, by evaluation: for every limit up to 100 and every
    iteration count up to the limit, the channels of the grayscale and of the
    fire scheme are integers of [0, 255]. *)
Lemma getColor_binary64_bytes {T : JsTrig float} (iteration maxIterations : Z) :
  1 <= maxIterations <= 100 -> 0 <= iteration <= maxIterations ->
  Binary64.byteChannels
    (getColor (N := Binary64.number) iteration maxIterations "grayscale") = true /\
  Binary64.byteChannels
    (getColor (N := Binary64.number) iteration maxIterations "fire") = true.
Proof.
  intros Hm Hi.
  assert (Hall :
    forallb (fun m =>
      forallb (fun i =>
        Binary64.byteChannels (getColor (N := Binary64.number) i m "grayscale") &&
        Binary64.byteChannels (getColor (N := Binary64.number) i m "fire"))
        (seqZ 0 (m + 1))) (seqZ 1 100) = true) by (vm_compute; reflexivity).
  rewrite forallb_forall in Hall.
  specialize (Hall maxIterations). rewrite <- list_elem_of_In in Hall.
  specialize (Hall ltac:(apply elem_of_seqZ; lia)).
  rewrite forallb_forall in Hall.
  specialize (Hall iteration). rewrite <- list_elem_of_In in Hall.
  specialize (Hall ltac:(apply elem_of_seqZ; lia)).
  now apply andb_true_iff in Hall.
Qed.

Section Grid.
Local Open Scope R_scope.

Lemma Int_part_monotone (u v : R) : u <= v -> (Int_part u <= Int_part v)%Z.
Proof.
  intros Huv. destruct (Int_part_bounds u), (Int_part_bounds v).
  apply Z.lt_succ_r, lt_IZR. rewrite succ_IZR. lra.
Qed.

Lemma toGrid_monotone : monotone Rounded.toGrid.
Proof.
  intros u v Huv. unfold Rounded.toGrid.
  apply Rmult_le_compat_r; [lra|]. apply IZR_le, Int_part_monotone. lra.
Qed.

Lemma toGrid_fixesBytes : fixesBytes Rounded.toGrid.
Proof.
  intros n _. unfold Rounded.toGrid.
  replace (Int_part (IZR n * 1024 + / 2)) with (n * 1024)%Z.
  - rewrite mult_IZR. field.
  - apply Int_part_spec. rewrite mult_IZR. lra.
Qed.

Lemma getColor_channels_are_bytes_witness :
  monotone Rounded.toGrid /\ fixesBytes Rounded.toGrid /\
  (1 <= 100)%Z /\ (0 <= 37 <= 100)%Z /\
  let c := getColor (N := Rounded.number Rounded.toGrid) (T := Rounded.trig sin)
             37 100 "fire" in
  isByte (r c) /\ isByte (g c) /\ isByte (b c).
Proof.
  split; [exact toGrid_monotone|]. split; [exact toGrid_fixesBytes|].
  split; [lia|]. split; [lia|].
  apply (getColor_channels_are_bytes Rounded.toGrid sin toGrid_monotone
           toGrid_fixesBytes "fire" 37 100); lia.
Defined.
End Grid.

(** * The coordinate mapper and the viewport algebra under rounding

    The statements of this part are about [Rounded.number rnd] for a
    rounding [rnd] that is monotone, keeps the small integers and errs by at
    most [eps * |v|] on every exact result [v] in range, with [eps <= 1/8];
    the rounding of binary64 is one, with the parameters [unitRoundoff],
    [smallestNormal] and [largestFinite]. *)

Section RoundedViewport.
Local Open Scope R_scope.
Variables (rnd : R -> R) (eps lam omega : R).
Hypothesis eps_nonneg : 0 <= eps.
Hypothesis eps_small : eps <= / 8.
Hypothesis rnd_monotone : monotone rnd.
Hypothesis rnd_bytes : fixesBytes rnd.
Hypothesis rnd_error : roundsWithin eps lam omega rnd.

Local Abbreviation ok := (inRange lam omega).

(** *** The rounding *)

(** Zero is a number of the format. *)
Lemma rnd_zero : rnd 0 = 0.
Proof.
  pose proof (rnd_error 0 (or_introl eq_refl)) as H.
  rewrite Rabs_R0, Rmult_0_r, Rminus_0_r in H.
  pose proof (Rabs_pos (rnd 0)).
  destruct (Req_dec (rnd 0) 0) as [E|E]; [exact E|].
  pose proof (Rabs_pos_lt _ E). lra.
Qed.

Lemma Rabs_bound (a c : R) : Rabs a <= c -> - c <= a <= c.
Proof. unfold Rabs. destruct (Rcase_abs a); lra. Qed.

(** The error bound, read as an interval around the exact result. *)
Lemma rnd_near (v : R) : ok v -> v - eps * Rabs v <= rnd v <= v + eps * Rabs v.
Proof.
  intros Hv. pose proof (rnd_error v Hv) as H.
  apply Rabs_bound in H. lra.
Qed.

Lemma rnd_pos (v : R) : ok v -> 0 <= v -> v * (1 - eps) <= rnd v <= v * (1 + eps).
Proof.
  intros Hv H0. pose proof (rnd_near v Hv) as H.
  rewrite (Rabs_pos_eq v H0) in H. lra.
Qed.

Lemma rnd_abs (v : R) : ok v -> Rabs (rnd v) <= (1 + eps) * Rabs v.
Proof.
  intros Hv. pose proof (rnd_error v Hv) as H.
  replace (rnd v) with ((rnd v - v) + v) by ring.
  eapply Rle_trans; [apply Rabs_triang|]. lra.
Qed.

Lemma rnd_nonneg (v : R) : 0 <= v -> 0 <= rnd v.
Proof. intros H. rewrite <- rnd_zero. now apply rnd_monotone. Qed.

Lemma rnd_nonpos (v : R) : v <= 0 -> rnd v <= 0.
Proof. intros H. rewrite <- rnd_zero. now apply rnd_monotone. Qed.

(** *** One axis *)

(** The rounded extent of an axis. *)
Lemma extent_bounds (lo hi : R) :
  lo < hi -> ok (hi - lo) ->
  (hi - lo) * (1 - eps) <= rnd (hi - lo) <= (hi - lo) * (1 + eps) /\ 0 < rnd (hi - lo).
Proof.
  intros Hlt Hr. pose proof (rnd_pos (hi - lo) Hr ltac:(lra)) as H.
  split; [exact H|]. nra.
Qed.

(** The scale of an axis: the size of a pixel. *)
Lemma axisScale_bounds (lo hi size : R) :
  lo < hi -> 0 < size -> scaleInRange rnd lam omega lo hi size ->
  (hi - lo) / size * (1 - 2 * eps) <= axisScale rnd lo hi size
    <= (hi - lo) / size * (1 + 3 * eps).
Proof.
  intros Hlt Hsize [Hr1 Hr2]. unfold axisScale.
  destruct (extent_bounds lo hi Hlt Hr1) as [Hd Hdpos].
  set (d := rnd (hi - lo)) in *. set (W := hi - lo) in *.
  assert (HW : 0 < W) by (unfold W; lra).
  assert (Hk : 0 < / size) by now apply Rinv_0_lt_compat.
  unfold Rdiv in *. set (k := / size) in *.
  assert (Hq : 0 <= d * k) by nra.
  pose proof (rnd_pos (d * k) Hr2 Hq) as Hs.
  assert (Hq1 : W * k * (1 - eps) <= d * k) by nra.
  assert (Hq2 : d * k <= W * k * (1 + eps)) by nra.
  assert (HWk : 0 < W * k) by nra.
  split; nra.
Qed.

(** The rounded offset of pixel [p] from the lower bound. *)
Lemma offset_bounds (lo hi size p : R) :
  lo < hi -> 0 < size -> 0 <= p -> forwardInRange rnd lam omega lo hi size p ->
  p * ((hi - lo) / size) * (1 - 3 * eps) <= rnd (p * axisScale rnd lo hi size)
    <= p * ((hi - lo) / size) * (1 + 5 * eps).
Proof.
  intros Hlt Hsize Hp (Hs & Hr & _).
  pose proof (axisScale_bounds lo hi size Hlt Hsize Hs) as Hsb.
  set (s := axisScale rnd lo hi size) in *.
  assert (HQ : 0 < (hi - lo) / size).
  { apply Rmult_lt_0_compat; [lra | now apply Rinv_0_lt_compat]. }
  set (Q := (hi - lo) / size) in *.
  assert (Hs0 : 0 <= s) by nra.
  assert (Hps : 0 <= p * s) by nra.
  pose proof (rnd_pos (p * s) Hr Hps) as Ht.
  assert (HpQ : 0 <= p * Q) by nra.
  assert (H1 : p * Q * (1 - 2 * eps) <= p * s) by nra.
  assert (H2 : p * s <= p * Q * (1 + 3 * eps)) by nra.
  split; nra.
Qed.

Lemma scaled_bound (v c B C : R) :
  - B <= v <= B -> 0 <= c <= C -> - (B * C) <= v * c <= B * C.
Proof. intros Hv Hc. assert (0 <= B) by lra. split; nra. Qed.

(** The larger magnitude of the two bounds of an axis. *)
Lemma magnitude_bounds (lo hi : R) :
  lo < hi ->
  Rabs lo <= Rmax (Rabs lo) (Rabs hi) /\ Rabs hi <= Rmax (Rabs lo) (Rabs hi) /\
  hi - lo <= 2 * Rmax (Rabs lo) (Rabs hi) /\ 0 < Rmax (Rabs lo) (Rabs hi).
Proof.
  intros Hlt. pose proof (Rmax_l (Rabs lo) (Rabs hi)). pose proof (Rmax_r (Rabs lo) (Rabs hi)).
  assert (Rabs lo >= - lo /\ Rabs hi >= hi) as [H1 H2].
  { unfold Rabs. destruct (Rcase_abs lo), (Rcase_abs hi); lra. }
  repeat split; lra.
Qed.

(** The pixel coordinate computed back from the complex coordinate of pixel
    [p], before [Math.round]. *)
Lemma axis_round_trip (lo hi size p : R) :
  lo < hi -> 0 < size -> 0 <= p <= size ->
  forwardInRange rnd lam omega lo hi size p ->
  backwardInRange rnd lam omega lo hi size (axisForward rnd lo hi size p) ->
  Rabs (axisBackward rnd lo hi size (axisForward rnd lo hi size p) - p)
  <= mapTolerance eps lo hi size.
Proof.
  intros Hlt Hsize Hp Hfw (HrW & Hrr & Hrg & Hrn). unfold mapTolerance.
  pose proof (offset_bounds lo hi size p Hlt Hsize (proj1 Hp) Hfw) as Ht.
  destruct Hfw as (Hs & Hrps & Hra).
  destruct (extent_bounds lo hi Hlt HrW) as [Hd Hdpos].
  destruct (magnitude_bounds lo hi Hlt) as (HMlo & HMhi & HMW & HMpos).
  unfold axisBackward, axisForward in *.
  set (M := Rmax (Rabs lo) (Rabs hi)) in *.
  set (t := rnd (p * axisScale rnd lo hi size)) in *.
  set (d := rnd (hi - lo)) in *.
  pose proof (rnd_error _ Hra) as He4. apply Rabs_bound in He4.
  set (re := rnd (lo + t)) in *.
  pose proof (rnd_error _ Hrr) as He5. apply Rabs_bound in He5.
  set (u := rnd (re - lo)) in *.
  assert (Hg0 : 0 < size / d).
  { apply Rmult_lt_0_compat; [lra | now apply Rinv_0_lt_compat]. }
  pose proof (rnd_pos _ Hrg (Rlt_le _ _ Hg0)) as Hsc.
  assert (Hgd : size / d * d = size) by (field; lra).
  set (g := size / d) in *. set (sc := rnd g) in *.
  pose proof (rnd_error _ Hrn) as He7. apply Rabs_bound in He7.
  set (n := u * sc) in *. set (v := rnd n) in *.
  assert (HW : 0 < hi - lo) by lra.
  assert (HkW : 0 < / (hi - lo)) by now apply Rinv_0_lt_compat.
  assert (HQiq : (hi - lo) / size * (size * / (hi - lo)) = 1) by (field; lra).
  assert (HWk : (hi - lo) * / (hi - lo) = 1) by (field; lra).
  change (M / (hi - lo)) with (M * / (hi - lo)).
  set (W := hi - lo) in *. set (kW := / W) in *.
  set (Q := W / size) in *.
  set (iq := size * kW) in *.
  assert (Hiq : 0 < iq) by (unfold iq; nra).
  assert (HQ : 0 < Q).
  { unfold Q. apply Rmult_lt_0_compat; [lra | now apply Rinv_0_lt_compat]. }
  (* the offset, in pixels *)
  assert (Htp : p * (1 - 3 * eps) <= t * iq <= p * (1 + 5 * eps)).
  { assert (H1 : p * Q * (1 - 3 * eps) * iq <= t * iq)
      by (apply Rmult_le_compat_r; lra).
    assert (H2 : t * iq <= p * Q * (1 + 5 * eps) * iq)
      by (apply Rmult_le_compat_r; lra).
    replace (p * Q * (1 - 3 * eps) * iq) with (p * (1 - 3 * eps) * (Q * iq)) in H1 by ring.
    replace (p * Q * (1 + 5 * eps) * iq) with (p * (1 + 5 * eps) * (Q * iq)) in H2 by ring.
    rewrite HQiq in H1, H2. lra. }
  assert (Ht0 : 0 <= t) by nra.
  (* the magnitude of the complex coordinate *)
  assert (HA : Rabs (lo + t) <= 17 / 4 * M).
  { assert (HpQ : p * Q <= W).
    { assert (HSQ : size * Q = W) by (unfold Q; field; lra). nra. }
    assert (t <= 13 / 8 * W) by nra.
    apply Rabs_le. apply Rabs_bound in HMlo. lra. }
  set (A := Rabs (lo + t)) in *.
  assert (HA0 : 0 <= A) by apply Rabs_pos.
  set (X := A * iq).
  assert (HX0 : 0 <= X) by (unfold X; nra).
  assert (He4p : - (eps * X) <= (re - (lo + t)) * iq <= eps * X) by (unfold X; nra).
  assert (Hr : Rabs (re - lo) <= t + eps * A) by (apply Rabs_le; lra).
  set (Rr := Rabs (re - lo)) in *.
  assert (HRr0 : 0 <= Rr) by apply Rabs_pos.
  assert (He5p : - (eps * (t * iq + eps * X)) <= (u - (re - lo)) * iq
                 <= eps * (t * iq + eps * X)).
  { assert (eps * Rr <= eps * (t + eps * A)) by nra.
    assert (Hm : - (eps * (t + eps * A)) <= u - (re - lo) <= eps * (t + eps * A)) by lra.
    unfold X. split; nra. }
  assert (Hup : - (7 * eps * p + 2 * eps * X) <= u * iq - p <= 7 * eps * p + 2 * eps * X).
  { replace (u * iq) with (t * iq + (re - (lo + t)) * iq + (u - (re - lo)) * iq) by ring.
    assert (eps * eps <= eps * / 8) by nra.
    assert (eps * eps * X <= eps * X * / 8) by nra.
    assert (0 <= eps * p) by nra. assert (0 <= eps * X) by nra.
    assert (eps * (t * iq) <= eps * (p * (1 + 5 * eps))) by nra.
    assert (eps * (p * (5 * eps)) <= 5 / 8 * (eps * p)) by nra.
    split; nra. }
  (* the inverse scale *)
  assert (Hscq : 1 - 2 * eps <= sc * Q <= 1 + 4 * eps).
  { assert (HgW : g * W * (1 - eps) <= size <= g * W * (1 + eps)) by (split; nra).
    assert (HgQ : g * Q * size = g * W) by (unfold Q; field; lra).
    assert (Hg1 : g * Q * (1 - eps) <= 1 <= g * Q * (1 + eps)) by (split; nra).
    assert (0 <= g * Q) by nra.
    assert (HscQ : g * Q * (1 - eps) <= sc * Q <= g * Q * (1 + eps)) by (split; nra).
    split; nra. }
  assert (Hn : n = u * iq * (sc * Q)).
  { unfold n. replace (u * iq * (sc * Q)) with (u * sc * (Q * iq)) by ring.
    rewrite HQiq. ring. }
  assert (Hnp : - (15 * eps * p + 3 * eps * X) <= n - p <= 15 * eps * p + 3 * eps * X).
  { rewrite Hn.
    replace (u * iq * (sc * Q) - p) with ((u * iq - p) * (sc * Q) + p * (sc * Q - 1)) by ring.
    pose proof (scaled_bound (u * iq - p) (sc * Q) (7 * eps * p + 2 * eps * X) (3 / 2) Hup
                  ltac:(lra)) as Hsb.
    assert (0 <= eps * p) by nra. assert (0 <= eps * X) by nra.
    assert (- (4 * eps * p) <= p * (sc * Q - 1) <= 4 * eps * p) by (split; nra).
    lra. }
  assert (HRn : Rabs n <= 3 * p + X / 2).
  { assert (0 <= eps * p) by nra. assert (0 <= eps * X) by nra.
    assert (eps * p <= p / 8) by nra. assert (eps * X <= X / 8) by nra.
    apply Rabs_le. lra. }
  set (Rn := Rabs n) in *. assert (0 <= Rn) by apply Rabs_pos.
  assert (Hvp : - (18 * eps * p + 4 * eps * X) <= v - p <= 18 * eps * p + 4 * eps * X).
  { assert (eps * Rn <= eps * (3 * p + X / 2)) by nra.
    assert (0 <= eps * X) by nra. lra. }
  apply Rabs_le.
  assert (HXM : 4 * X <= 17 * (M * kW) * size).
  { unfold X, iq. assert (0 <= size * kW) by nra. nra. }
  assert (0 <= M * kW) by nra.
  assert (eps * (4 * X) <= eps * (17 * (M * kW) * size)) by nra.
  assert (eps * p <= eps * size) by nra.
  assert (0 <= eps * (M * kW * size)).
  { apply Rmult_le_pos; [lra|]. nra. }
  replace (18 * eps * size * (1 + M * kW))
    with (18 * (eps * size) + 18 * (eps * (M * kW * size))) by ring.
  lra.
Qed.

(** [Math.round] gives the integer that lies within 1/2 of its argument. *)
Lemma Math_round_nearest (v : R) (k : Z) :
  Rabs (v - IZR k) < / 2 -> Exact.Math_round v = IZR k.
Proof.
  intros H. unfold Exact.Math_round. f_equal. symmetry. apply Int_part_spec.
  unfold Rabs in H. destruct (Rcase_abs (v - IZR k)); lra.
Qed.

Lemma Math_round_close (v : R) : Rabs (Exact.Math_round v - v) <= / 2.
Proof.
  unfold Exact.Math_round.
  destruct (base_Int_part (v + / 2)) as [Hle Hlt].
  apply Rabs_le. lra.
Qed.

Lemma axis_round_trip_pixel (lo hi size p : R) :
  lo < hi -> 0 < size -> 0 <= p <= size ->
  forwardInRange rnd lam omega lo hi size p ->
  backwardInRange rnd lam omega lo hi size (axisForward rnd lo hi size p) ->
  let q := Exact.Math_round (axisBackward rnd lo hi size (axisForward rnd lo hi size p)) in
  Rabs (q - p) <= / 2 + mapTolerance eps lo hi size /\
  (forall k : Z, p = IZR k -> mapTolerance eps lo hi size < / 2 -> q = p).
Proof.
  intros Hlt Hsize Hp Hfw Hbw q.
  pose proof (axis_round_trip lo hi size p Hlt Hsize Hp Hfw Hbw) as H.
  unfold q. set (v := axisBackward rnd lo hi size (axisForward rnd lo hi size p)) in *.
  split.
  - replace (Exact.Math_round v - p) with ((Exact.Math_round v - v) + (v - p)) by ring.
    eapply Rle_trans; [apply Rabs_triang|].
    pose proof (Math_round_close v). lra.
  - intros k Hk Htol. rewrite Hk in *. apply Math_round_nearest. lra.
Qed.

(** Under a monotone rounding the scale of an axis is not negative. *)
Lemma axisScale_nonneg (lo hi size : R) :
  lo < hi -> 0 < size -> 0 <= axisScale rnd lo hi size.
Proof.
  intros Hlt Hsize. unfold axisScale. apply rnd_nonneg.
  apply Rmult_le_pos; [apply rnd_nonneg; lra|].
  left. now apply Rinv_0_lt_compat.
Qed.

(** The map to the complex plane keeps the order of the pixels, starts at
    the lower bound and stays below the upper bound for pixels short of the
    far edge; pixels one apart map to different numbers when the viewport is
    wide enough for the precision. *)
Lemma axisForward_monotone (lo hi size p1 p2 : R) :
  lo < hi -> 0 < size -> p1 <= p2 ->
  axisForward rnd lo hi size p1 <= axisForward rnd lo hi size p2.
Proof.
  intros Hlt Hsize Hp. unfold axisForward.
  pose proof (axisScale_nonneg lo hi size Hlt Hsize) as Hs.
  apply rnd_monotone. apply Rplus_le_compat_l. apply rnd_monotone. nra.
Qed.

Lemma axisForward_lower (lo hi size p : R) :
  lo < hi -> 0 < size -> 0 <= p -> inFormat rnd lo ->
  lo <= axisForward rnd lo hi size p.
Proof.
  intros Hlt Hsize Hp Hlo. unfold axisForward.
  pose proof (axisScale_nonneg lo hi size Hlt Hsize) as Hs.
  rewrite <- Hlo at 1. apply rnd_monotone.
  assert (0 <= rnd (p * axisScale rnd lo hi size)) by (apply rnd_nonneg; nra).
  lra.
Qed.

Lemma axisForward_upper (lo hi size p : R) :
  lo < hi -> 0 < size -> 0 <= p -> p * (1 + 5 * eps) <= size -> inFormat rnd hi ->
  forwardInRange rnd lam omega lo hi size p ->
  axisForward rnd lo hi size p <= hi.
Proof.
  intros Hlt Hsize Hp Hedge Hhi Hfw.
  pose proof (offset_bounds lo hi size p Hlt Hsize Hp Hfw) as Ht.
  unfold axisForward. rewrite <- Hhi at 2. apply rnd_monotone.
  assert (HQ : 0 < (hi - lo) / size).
  { apply Rmult_lt_0_compat; [lra | now apply Rinv_0_lt_compat]. }
  assert (HSQ : size * ((hi - lo) / size) = hi - lo) by (field; lra).
  set (Q := (hi - lo) / size) in *.
  set (t := rnd (p * axisScale rnd lo hi size)) in *.
  assert (p * Q * (1 + 5 * eps) <= size * Q) by nra.
  lra.
Qed.

(** The magnitude of the complex coordinate of a pixel of the canvas. *)
Lemma axisForward_exact_magnitude (lo hi size p : R) :
  lo < hi -> 0 < size -> 0 <= p <= size ->
  forwardInRange rnd lam omega lo hi size p ->
  Rabs (lo + rnd (p * axisScale rnd lo hi size)) <= 17 / 4 * Rmax (Rabs lo) (Rabs hi).
Proof.
  intros Hlt Hsize Hp Hfw.
  pose proof (offset_bounds lo hi size p Hlt Hsize (proj1 Hp) Hfw) as Ht.
  destruct (magnitude_bounds lo hi Hlt) as (HMlo & HMhi & HMW & HMpos).
  assert (HQ : 0 < (hi - lo) / size).
  { apply Rmult_lt_0_compat; [lra | now apply Rinv_0_lt_compat]. }
  assert (HSQ : size * ((hi - lo) / size) = hi - lo) by (field; lra).
  set (Q := (hi - lo) / size) in *.
  set (t := rnd (p * axisScale rnd lo hi size)) in *.
  set (M := Rmax (Rabs lo) (Rabs hi)) in *.
  assert (p * Q <= hi - lo) by nra.
  assert (0 <= p * Q) by nra.
  assert (0 <= t <= 13 / 8 * (hi - lo)) by (split; nra).
  apply Rabs_le. apply Rabs_bound in HMlo. lra.
Qed.

Lemma axisForward_strict (lo hi size p1 p2 : R) :
  lo < hi -> 0 < size -> 0 <= p1 -> p1 + 1 <= p2 -> p2 <= size ->
  forwardInRange rnd lam omega lo hi size p1 ->
  forwardInRange rnd lam omega lo hi size p2 ->
  mapTolerance eps lo hi size < 1 ->
  axisForward rnd lo hi size p1 < axisForward rnd lo hi size p2.
Proof.
  intros Hlt Hsize Hp1 Hgap Hp2 Hfw1 Hfw2 Htol.
  pose proof (axisForward_exact_magnitude lo hi size p1 Hlt Hsize ltac:(lra) Hfw1) as HA1.
  pose proof (axisForward_exact_magnitude lo hi size p2 Hlt Hsize ltac:(lra) Hfw2) as HA2.
  destruct Hfw1 as (Hs & Hr1 & Ha1). destruct Hfw2 as (_ & Hr2 & Ha2).
  pose proof (axisScale_bounds lo hi size Hlt Hsize Hs) as Hsb.
  destruct (magnitude_bounds lo hi Hlt) as (HMlo & HMhi & HMW & HMpos).
  unfold axisForward, mapTolerance in *.
  assert (HQ : 0 < (hi - lo) / size).
  { apply Rmult_lt_0_compat; [lra | now apply Rinv_0_lt_compat]. }
  assert (HkW : 0 < / (hi - lo)) by (apply Rinv_0_lt_compat; lra).
  assert (HQiq : (hi - lo) / size * (size * / (hi - lo)) = 1) by (field; lra).
  change (Rmax (Rabs lo) (Rabs hi) / (hi - lo))
    with (Rmax (Rabs lo) (Rabs hi) * / (hi - lo)) in Htol.
  set (M := Rmax (Rabs lo) (Rabs hi)) in *.
  set (kW := / (hi - lo)) in *.
  set (Q := (hi - lo) / size) in *.
  set (s := axisScale rnd lo hi size) in *.
  assert (Hs0 : 3 / 4 * Q <= s) by nra.
  pose proof (rnd_pos (p1 * s) Hr1 ltac:(nra)) as Ht1.
  pose proof (rnd_pos (p2 * s) Hr2 ltac:(nra)) as Ht2.
  set (t1 := rnd (p1 * s)) in *. set (t2 := rnd (p2 * s)) in *.
  pose proof (rnd_near _ Ha1) as Hn1. pose proof (rnd_near _ Ha2) as Hn2.
  set (A1 := Rabs (lo + t1)) in *. set (A2 := Rabs (lo + t2)) in *.
  assert (0 <= A1) by apply Rabs_pos. assert (0 <= A2) by apply Rabs_pos.
  assert (HeA1 : eps * A1 <= eps * (17 / 4 * M)) by nra.
  assert (HeA2 : eps * A2 <= eps * (17 / 4 * M)) by nra.
  assert (Hes : 0 <= eps * size) by nra.
  assert (HeM : 0 <= eps * size * (M * kW)).
  { apply Rmult_le_pos; [exact Hes|]. nra. }
  assert (Hgap2 : 1 - 2 * (eps * size) <= p2 * (1 - eps) - p1 * (1 + eps)) by nra.
  assert (Hpos : 0 < 1 - 2 * (eps * size)) by nra.
  assert (Hdiff : s * (1 - 2 * (eps * size)) <= t2 - t1) by nra.
  assert (Hlow : 3 / 4 * Q * (1 - 2 * (eps * size)) <= t2 - t1) by nra.
  assert (Hneed : 17 / 2 * (eps * M) < 3 / 4 * Q * (1 - 2 * (eps * size))).
  { assert (Hm : 17 / 2 * (eps * M) * (size * kW) < 3 / 4 * (1 - 2 * (eps * size))).
    { replace (17 / 2 * (eps * M) * (size * kW)) with (17 / 2 * (eps * size * (M * kW)))
        by ring. lra. }
    assert (Hiq : 0 < size * kW) by nra.
    apply Rmult_lt_reg_r with (size * kW); [exact Hiq|].
    replace (3 / 4 * Q * (1 - 2 * (eps * size)) * (size * kW))
      with (3 / 4 * (1 - 2 * (eps * size)) * (Q * (size * kW))) by ring.
    rewrite HQiq. lra. }
  lra.
Qed.

(** One axis of [zoomAtPoint]: the extent and the centre of the new bounds. *)
Lemma zoom_axis (lo hi z c : R) :
  lo < hi -> 0 < z -> zoomInRange rnd lam omega lo hi z c ->
  let hw := rnd (axisScale rnd lo hi z / 2) in
  Rabs ((rnd (c + hw) - rnd (c - hw)) - (hi - lo) / z)
    <= eps * (2 * Rabs c + 7 * ((hi - lo) / z)) /\
  Rabs ((rnd (c - hw) + rnd (c + hw)) / 2 - c) <= eps * (Rabs c + (hi - lo) / z) /\
  rnd (c - hw) <= rnd (c + hw).
Proof.
  intros Hlt Hz (Hs & Hrh & Hrl & Hru) hw.
  pose proof (axisScale_bounds lo hi z Hlt Hz Hs) as Hsb.
  assert (HT : 0 < (hi - lo) / z).
  { apply Rmult_lt_0_compat; [lra | now apply Rinv_0_lt_compat]. }
  set (T := (hi - lo) / z) in *.
  set (nw := axisScale rnd lo hi z) in *.
  assert (Hnw0 : 0 <= nw / 2) by nra.
  pose proof (rnd_pos _ Hrh Hnw0) as Hhw. fold hw in Hhw, Hrl, Hru.
  assert (Hhw1 : T / 2 * (1 - 3 * eps) <= hw <= T / 2 * (1 + 5 * eps)) by (split; nra).
  assert (Hhw0 : 0 <= hw) by nra.
  pose proof (rnd_error _ Hrl) as Hel. pose proof (rnd_error _ Hru) as Heu.
  assert (Hal : Rabs (c - hw) <= Rabs c + hw).
  { replace (c - hw) with (c + - hw) by ring.
    eapply Rle_trans; [apply Rabs_triang|]. rewrite Rabs_Ropp, (Rabs_pos_eq hw); lra. }
  assert (Hau : Rabs (c + hw) <= Rabs c + hw).
  { eapply Rle_trans; [apply Rabs_triang|]. rewrite (Rabs_pos_eq hw); lra. }
  pose proof (Rabs_pos c) as Hc0.
  set (C := Rabs c) in *.
  set (Al := Rabs (c - hw)) in *. set (Au := Rabs (c + hw)) in *.
  assert (0 <= Al) by apply Rabs_pos. assert (0 <= Au) by apply Rabs_pos.
  apply Rabs_bound in Hel. apply Rabs_bound in Heu.
  assert (Hl2 : eps * Al <= eps * (C + hw)) by nra.
  assert (Hu2 : eps * Au <= eps * (C + hw)) by nra.
  assert (HeT : 0 <= eps * T) by nra. assert (HeC : 0 <= eps * C) by nra.
  assert (Hehw : eps * hw <= eps * T).
  { apply Rmult_le_compat_l; [lra|]. nra. }
  assert (H2hw : - (5 * (eps * T)) <= 2 * hw - T <= 5 * (eps * T)) by (split; nra).
  split; [|split].
  - apply Rabs_le. split; nra.
  - apply Rabs_le. split; nra.
  - apply rnd_monotone. lra.
Qed.

(** One axis of [panViewport]: the extent of the new bounds. *)
(** The error of a rounding, measured against the rounded result. *)
Lemma keeps_magnitude (v : R) :
  inRange lam omega v -> eps * Rabs v <= 2 * eps * Rabs (rnd v).
Proof.
  intros Hv. pose proof (rnd_error v Hv) as He.
  assert (Hx : Rabs v <= Rabs (rnd v) + Rabs (rnd v - v)).
  { replace v with (rnd v + - (rnd v - v)) at 1 by ring.
    eapply Rle_trans; [apply Rabs_triang|]. rewrite Rabs_Ropp. lra. }
  pose proof (Rabs_pos v). pose proof (Rabs_pos (rnd v)).
  set (X := Rabs v) in *. set (Y := Rabs (rnd v)) in *.
  set (E := Rabs (rnd v - v)) in *.
  assert (H1 : X * (1 - eps) <= Y) by lra.
  assert (H2 : eps * (X * (1 - eps)) <= eps * Y) by (apply Rmult_le_compat_l; lra).
  assert (H3 : eps * X * eps <= eps * X * / 8).
  { apply Rmult_le_compat_l; [|lra]. apply Rmult_le_pos; lra. }
  assert (H4 : 0 <= eps * Y) by (apply Rmult_le_pos; lra).
  lra.
Qed.

Lemma pan_axis_extent (lo hi dl : R) :
  inRange lam omega (lo - dl) -> inRange lam omega (hi - dl) ->
  Rabs ((rnd (hi - dl) - rnd (lo - dl)) - (hi - lo))
  <= 2 * eps * (Rabs (rnd (lo - dl)) + Rabs (rnd (hi - dl))).
Proof.
  intros Hl Hh.
  pose proof (rnd_error _ Hl) as Hel. pose proof (rnd_error _ Hh) as Heh.
  pose proof (keeps_magnitude _ Hl) as Hkl. pose proof (keeps_magnitude _ Hh) as Hkh.
  apply Rabs_bound in Hel. apply Rabs_bound in Heh.
  apply Rabs_le. lra.
Qed.

(** One axis of [panViewport]: a pan by at least one pixel moves a bound
    when the viewport is wide enough for the precision. *)
Lemma pan_axis_delta (lo hi size dd : R) :
  lo < hi -> 0 < size -> 1 <= dd ->
  scaleInRange rnd lam omega lo hi size ->
  inRange lam omega (dd * axisScale rnd lo hi size) ->
  mapTolerance eps lo hi size < 1 ->
  (hi - lo) / size * (21 / 32) <= rnd (dd * axisScale rnd lo hi size) /\
  2 * (eps * Rmax (Rabs lo) (Rabs hi)) < (hi - lo) / size.
Proof.
  intros Hlt Hsize Hdd Hs Hr Htol.
  pose proof (axisScale_bounds lo hi size Hlt Hsize Hs) as Hsb.
  destruct (magnitude_bounds lo hi Hlt) as (HMlo & HMhi & HMW & HMpos).
  unfold mapTolerance in Htol.
  assert (HQ : 0 < (hi - lo) / size).
  { apply Rmult_lt_0_compat; [lra | now apply Rinv_0_lt_compat]. }
  assert (HkW : 0 < / (hi - lo)) by (apply Rinv_0_lt_compat; lra).
  assert (HQiq : (hi - lo) / size * (size * / (hi - lo)) = 1) by (field; lra).
  change (Rmax (Rabs lo) (Rabs hi) / (hi - lo))
    with (Rmax (Rabs lo) (Rabs hi) * / (hi - lo)) in Htol.
  set (M := Rmax (Rabs lo) (Rabs hi)) in *.
  set (kW := / (hi - lo)) in *.
  set (Q := (hi - lo) / size) in *.
  set (s := axisScale rnd lo hi size) in *.
  assert (Hs0 : 3 / 4 * Q <= s) by nra.
  pose proof (rnd_pos (dd * s) Hr ltac:(nra)) as Ht.
  split.
  - assert (s <= dd * s) by nra. nra.
  - assert (Hes : 0 <= eps * size) by nra.
    assert (Hiq : 0 < size * kW) by nra.
    apply Rmult_lt_reg_r with (size * kW); [exact Hiq|].
    rewrite HQiq.
    replace (2 * (eps * M) * (size * kW)) with (2 * (eps * size * (M * kW))) by ring.
    assert (0 <= eps * size * (M * kW)).
    { apply Rmult_le_pos; [exact Hes|]. nra. }
    lra.
Qed.

Lemma pan_axis_strict_down (lo hi size dd b : R) :
  lo < hi -> 0 < size -> 1 <= dd ->
  scaleInRange rnd lam omega lo hi size ->
  inRange lam omega (dd * axisScale rnd lo hi size) ->
  inRange lam omega (b - rnd (dd * axisScale rnd lo hi size)) ->
  Rabs b <= Rmax (Rabs lo) (Rabs hi) ->
  mapTolerance eps lo hi size < 1 ->
  rnd (b - rnd (dd * axisScale rnd lo hi size)) < b.
Proof.
  intros Hlt Hsize Hdd Hs Hr Hb HbM Htol.
  destruct (pan_axis_delta lo hi size dd Hlt Hsize Hdd Hs Hr Htol) as [Hd HM].
  assert (HQ : 0 < (hi - lo) / size).
  { apply Rmult_lt_0_compat; [lra | now apply Rinv_0_lt_compat]. }
  set (dl := rnd (dd * axisScale rnd lo hi size)) in *.
  set (Q := (hi - lo) / size) in *. set (M := Rmax (Rabs lo) (Rabs hi)) in *.
  pose proof (rnd_near _ Hb) as Hn.
  assert (Ha : Rabs (b - dl) <= M + dl).
  { replace (b - dl) with (b + - dl) by ring.
    eapply Rle_trans; [apply Rabs_triang|]. rewrite Rabs_Ropp, (Rabs_pos_eq dl); lra. }
  set (A := Rabs (b - dl)) in *. assert (0 <= A) by apply Rabs_pos.
  assert (eps * A <= eps * (M + dl)) by nra.
  assert (eps * dl <= dl / 8) by nra.
  lra.
Qed.

Lemma pan_axis_strict_up (lo hi size dd b : R) :
  lo < hi -> 0 < size -> dd <= - 1 ->
  scaleInRange rnd lam omega lo hi size ->
  inRange lam omega (dd * axisScale rnd lo hi size) ->
  inRange lam omega (b - rnd (dd * axisScale rnd lo hi size)) ->
  Rabs b <= Rmax (Rabs lo) (Rabs hi) ->
  mapTolerance eps lo hi size < 1 ->
  b < rnd (b - rnd (dd * axisScale rnd lo hi size)).
Proof.
  intros Hlt Hsize Hdd Hs Hr Hb HbM Htol.
  pose proof (axisScale_bounds lo hi size Hlt Hsize Hs) as Hsb.
  destruct (magnitude_bounds lo hi Hlt) as (HMlo & HMhi & HMW & HMpos).
  assert (HQ : 0 < (hi - lo) / size).
  { apply Rmult_lt_0_compat; [lra | now apply Rinv_0_lt_compat]. }
  assert (HM : 2 * (eps * Rmax (Rabs lo) (Rabs hi)) < (hi - lo) / size).
  { unfold mapTolerance in Htol.
    assert (HkW : 0 < / (hi - lo)) by (apply Rinv_0_lt_compat; lra).
    assert (HQiq : (hi - lo) / size * (size * / (hi - lo)) = 1) by (field; lra).
    change (Rmax (Rabs lo) (Rabs hi) / (hi - lo))
      with (Rmax (Rabs lo) (Rabs hi) * / (hi - lo)) in Htol.
    set (M := Rmax (Rabs lo) (Rabs hi)) in *. set (kW := / (hi - lo)) in *.
    assert (Hes : 0 <= eps * size) by nra.
    assert (Hiq : 0 < size * kW) by nra.
    apply Rmult_lt_reg_r with (size * kW); [exact Hiq|].
    rewrite HQiq.
    replace (2 * (eps * M) * (size * kW)) with (2 * (eps * size * (M * kW))) by ring.
    assert (0 <= eps * size * (M * kW)).
    { apply Rmult_le_pos; [exact Hes|]. nra. }
    lra. }
  set (Q := (hi - lo) / size) in *. set (M := Rmax (Rabs lo) (Rabs hi)) in *.
  set (s := axisScale rnd lo hi size) in *.
  assert (Hs0 : 3 / 4 * Q <= s) by nra.
  pose proof (rnd_near _ Hr) as Ht.
  assert (Hds : dd * s <= - s) by nra.
  rewrite (Rabs_left1 (dd * s)) in Ht by nra.
  assert (Hdl : rnd (dd * s) <= - (21 / 32 * Q)) by nra.
  set (dl := rnd (dd * s)) in *.
  pose proof (rnd_near _ Hb) as Hn.
  assert (Ha : Rabs (b - dl) <= M - dl).
  { replace (b - dl) with (b + - dl) by ring.
    eapply Rle_trans; [apply Rabs_triang|]. rewrite Rabs_Ropp, (Rabs_left1 dl); lra. }
  set (A := Rabs (b - dl)) in *. assert (0 <= A) by apply Rabs_pos.
  assert (eps * A <= eps * (M - dl)) by nra.
  assert (eps * - dl <= - dl / 8) by nra.
  lra.
Qed.

(** *** The functions of the module, axis by axis *)

Lemma pixelToComplex_axes (px py w h : R) (vp : Viewport R) :
  pixelToComplex (N := Rounded.number rnd) px py w h vp
  = mkComplex (axisForward rnd (xMin vp) (xMax vp) w px)
              (axisForward rnd (yMin vp) (yMax vp) h py).
Proof. reflexivity. Qed.

Lemma complexToPixel_axes (re im w h : R) (vp : Viewport R) :
  complexToPixel (N := Rounded.number rnd) re im w h vp
  = mkPixel (Exact.Math_round (axisBackward rnd (xMin vp) (xMax vp) w re))
            (Exact.Math_round (axisBackward rnd (yMin vp) (yMax vp) h im)).
Proof. reflexivity. Qed.

Lemma createZoomViewport_axes (vp : Viewport R) (x1 y1 x2 y2 w h : R) :
  createZoomViewport (N := Rounded.number rnd) vp x1 y1 x2 y2 w h
  = mkViewport (axisForward rnd (xMin vp) (xMax vp) w (Rmin x1 x2))
               (axisForward rnd (xMin vp) (xMax vp) w (Rmax x1 x2))
               (axisForward rnd (yMin vp) (yMax vp) h (Rmin y1 y2))
               (axisForward rnd (yMin vp) (yMax vp) h (Rmax y1 y2)).
Proof. reflexivity. Qed.

Lemma panViewport_axes (vp : Viewport R) (dx dy w h : R) :
  panViewport (N := Rounded.number rnd) vp dx dy w h
  = mkViewport (rnd (xMin vp - rnd (dx * axisScale rnd (xMin vp) (xMax vp) w)))
               (rnd (xMax vp - rnd (dx * axisScale rnd (xMin vp) (xMax vp) w)))
               (rnd (yMin vp - rnd (dy * axisScale rnd (yMin vp) (yMax vp) h)))
               (rnd (yMax vp - rnd (dy * axisScale rnd (yMin vp) (yMax vp) h))).
Proof. reflexivity. Qed.

Lemma zoomAtPoint_axes (vp : Viewport R) (cx cy z w h : R) :
  let c := pixelToComplex (N := Rounded.number rnd) cx cy w h vp in
  zoomAtPoint (N := Rounded.number rnd) vp cx cy z w h
  = mkViewport (rnd (real c - rnd (axisScale rnd (xMin vp) (xMax vp) z / 2)))
               (rnd (real c + rnd (axisScale rnd (xMin vp) (xMax vp) z / 2)))
               (rnd (imaginary c - rnd (axisScale rnd (yMin vp) (yMax vp) z / 2)))
               (rnd (imaginary c + rnd (axisScale rnd (yMin vp) (yMax vp) z / 2))).
Proof.
  intros c. unfold zoomAtPoint. cbn [num_sub num_add num_div of_Z Rounded.number].
  rewrite (rnd_bytes 2%Z ltac:(lia)). reflexivity.
Qed.

(** C2, in the arithmetic of the code: for a viewport with [xMin < xMax]
    and [yMin < yMax], positive [w] and [h] and a pixel coordinate
    [(px, py)] of the canvas, as long as no operation underflows or
    overflows, mapping the pixel to the complex plane and back gives a pixel
    within [1/2 + mapTolerance] of the original in each axis; it gives back
    the original exactly when that is an integer pixel index and
    [mapTolerance] is below 1/2. *)
Theorem complexToPixel_pixelToComplex_rounded (vp : Viewport R) (w h px py : R) :
  wellOrdered vp -> 0 < w -> 0 < h -> 0 <= px <= w -> 0 <= py <= h ->
  roundTripInRange rnd lam omega px py w h vp ->
  let c := pixelToComplex (N := Rounded.number rnd) px py w h vp in
  let p := complexToPixel (N := Rounded.number rnd) (real c) (imaginary c) w h vp in
  let tolx := mapTolerance eps (xMin vp) (xMax vp) w in
  let toly := mapTolerance eps (yMin vp) (yMax vp) h in
  Rabs (x p - px) <= / 2 + tolx /\ Rabs (y p - py) <= / 2 + toly /\
  (forall k : Z, px = IZR k -> tolx < / 2 -> x p = px) /\
  (forall k : Z, py = IZR k -> toly < / 2 -> y p = py).
Proof.
  intros [Hx Hy] Hw Hh Hpx Hpy ([Hfx Hfy] & Hbx & Hby) c p tolx toly.
  unfold p, c. rewrite pixelToComplex_axes, complexToPixel_axes. cbn [x y real imaginary].
  destruct (axis_round_trip_pixel (xMin vp) (xMax vp) w px Hx Hw Hpx Hfx Hbx) as [Hx1 Hx2].
  destruct (axis_round_trip_pixel (yMin vp) (yMax vp) h py Hy Hh Hpy Hfy Hby) as [Hy1 Hy2].
  split; [exact Hx1|]. split; [exact Hy1|]. split; assumption.
Qed.

(** The extents and the centre after a zoom by any positive factor. *)
Lemma zoomAtPoint_rounded (vp : Viewport R) (cx cy z w h : R) :
  wellOrdered vp -> 0 < z ->
  zoomAtPointInRange rnd lam omega vp cx cy z w h ->
  let c := pixelToComplex (N := Rounded.number rnd) cx cy w h vp in
  let r := zoomAtPoint (N := Rounded.number rnd) vp cx cy z w h in
  (Rabs ((xMax r - xMin r) - (xMax vp - xMin vp) / z)
     <= eps * (2 * Rabs (real c) + 7 * ((xMax vp - xMin vp) / z)) /\
   Rabs ((yMax r - yMin r) - (yMax vp - yMin vp) / z)
     <= eps * (2 * Rabs (imaginary c) + 7 * ((yMax vp - yMin vp) / z))) /\
  (Rabs ((xMin r + xMax r) / 2 - real c)
     <= eps * (Rabs (real c) + (xMax vp - xMin vp) / z) /\
   Rabs ((yMin r + yMax r) / 2 - imaginary c)
     <= eps * (Rabs (imaginary c) + (yMax vp - yMin vp) / z)) /\
  (xMin r <= xMax r /\ yMin r <= yMax r).
Proof.
  intros [Hx Hy] Hz0 (_ & Hzx & Hzy) c r.
  unfold r. rewrite zoomAtPoint_axes. fold c. cbn [xMin xMax yMin yMax].
  unfold c. rewrite pixelToComplex_axes. cbn [real imaginary].
  destruct (zoom_axis (xMin vp) (xMax vp) z _ Hx Hz0 Hzx) as (Hx1 & Hx2 & Hx3).
  destruct (zoom_axis (yMin vp) (yMax vp) z _ Hy Hz0 Hzy) as (Hy1 & Hy2 & Hy3).
  repeat split; assumption.
Qed.

(** C3, in the arithmetic of the code: for a viewport with positive
    extents and positive [w] and [h], as long as no operation underflows or
    overflows, [zoomAtPoint] with factor 2 gives extents that differ from
    half those of the input, and with factor 1/2 from twice those of the
    input, by at most [eps] times twice the magnitude of the centre plus
    seven times the new extent; the midpoint of the new bounds differs from
    the complex point [c] of [(cx, cy)] under the original viewport by at
    most [eps] times the magnitude of [c] plus the new extent. *)
Theorem zoomAtPoint_extents_and_centre_rounded (vp : Viewport R) (cx cy w h : R) :
  wellOrdered vp -> 0 < w -> 0 < h ->
  zoomAtPointInRange rnd lam omega vp cx cy 2 w h ->
  zoomAtPointInRange rnd lam omega vp cx cy (/ 2) w h ->
  let c := pixelToComplex (N := Rounded.number rnd) cx cy w h vp in
  let zin := zoomAtPoint (N := Rounded.number rnd) vp cx cy 2 w h in
  let zout := zoomAtPoint (N := Rounded.number rnd) vp cx cy (/ 2) w h in
  let width := xMax vp - xMin vp in
  let height := yMax vp - yMin vp in
  (Rabs ((xMax zin - xMin zin) - width / 2)
     <= eps * (2 * Rabs (real c) + 7 * (width / 2)) /\
   Rabs ((yMax zin - yMin zin) - height / 2)
     <= eps * (2 * Rabs (imaginary c) + 7 * (height / 2))) /\
  (Rabs ((xMax zout - xMin zout) - 2 * width)
     <= eps * (2 * Rabs (real c) + 7 * (2 * width)) /\
   Rabs ((yMax zout - yMin zout) - 2 * height)
     <= eps * (2 * Rabs (imaginary c) + 7 * (2 * height))) /\
  (Rabs ((xMin zin + xMax zin) / 2 - real c) <= eps * (Rabs (real c) + width / 2) /\
   Rabs ((yMin zin + yMax zin) / 2 - imaginary c)
     <= eps * (Rabs (imaginary c) + height / 2)) /\
  (Rabs ((xMin zout + xMax zout) / 2 - real c) <= eps * (Rabs (real c) + 2 * width) /\
   Rabs ((yMin zout + yMax zout) / 2 - imaginary c)
     <= eps * (Rabs (imaginary c) + 2 * height)).
Proof.
  intros Hwo Hw Hh Hin Hout c zin zout width height.
  destruct (zoomAtPoint_rounded vp cx cy 2 w h Hwo ltac:(lra) Hin) as (He1 & Hc1 & _).
  destruct (zoomAtPoint_rounded vp cx cy (/ 2) w h Hwo ltac:(lra) Hout) as (He2 & Hc2 & _).
  fold c zin in He1, Hc1. fold c zout in He2, Hc2. fold width height in He1, Hc1, He2, Hc2.
  replace (width / / 2) with (2 * width) in He2, Hc2 by (field).
  replace (height / / 2) with (2 * height) in He2, Hc2 by (field).
  split; [exact He1|]. split; [exact He2|]. split; [exact Hc1 | exact Hc2].
Qed.

(** The tolerance of an axis is at least [18 * eps] per pixel. *)
Lemma tolerance_size (lo hi size : R) :
  lo < hi -> 0 < size -> 18 * (eps * size) <= mapTolerance eps lo hi size.
Proof.
  intros Hlt Hsize. unfold mapTolerance.
  destruct (magnitude_bounds lo hi Hlt) as (_ & _ & _ & HMpos).
  assert (0 < / (hi - lo)) by (apply Rinv_0_lt_compat; lra).
  assert (0 <= Rmax (Rabs lo) (Rabs hi) / (hi - lo)).
  { apply Rmult_le_pos; lra. }
  assert (0 <= eps * size) by (apply Rmult_le_pos; lra).
  nra.
Qed.

(** One axis of [createZoomViewport]. *)
Lemma createZoomViewport_axis (lo hi size p1 p2 : R) :
  lo < hi -> inFormat rnd lo -> inFormat rnd hi -> 0 < size ->
  0 <= p1 <= size - 1 -> 0 <= p2 <= size - 1 -> 1 <= Rabs (p1 - p2) ->
  mapTolerance eps lo hi size < 1 ->
  forwardInRange rnd lam omega lo hi size (Rmin p1 p2) ->
  forwardInRange rnd lam omega lo hi size (Rmax p1 p2) ->
  lo <= axisForward rnd lo hi size (Rmin p1 p2) /\
  axisForward rnd lo hi size (Rmin p1 p2) < axisForward rnd lo hi size (Rmax p1 p2) /\
  axisForward rnd lo hi size (Rmax p1 p2) <= hi.
Proof.
  intros Hlt Hlo Hhi Hsize Hp1 Hp2 Hgap Htol Hfl Hfr.
  pose proof (tolerance_size lo hi size Hlt Hsize) as Hts.
  assert (Hm : 0 <= Rmin p1 p2 /\ Rmin p1 p2 + 1 <= Rmax p1 p2 /\ Rmax p1 p2 <= size - 1).
  { unfold Rmin, Rmax, Rabs in *.
    destruct (Rle_dec p1 p2), (Rcase_abs (p1 - p2)); lra. }
  destruct Hm as (Hm0 & Hm1 & Hm2).
  set (pl := Rmin p1 p2) in *. set (pr := Rmax p1 p2) in *.
  split; [|split].
  - apply axisForward_lower; auto.
  - apply axisForward_strict;
      auto; lra.
  - apply axisForward_upper;
      auto; [lra|].
    assert (0 <= eps * size) by (apply Rmult_le_pos; lra).
    assert (eps * pr <= eps * size) by (apply Rmult_le_compat_l; lra).
    lra.
Qed.

(** C5, in the arithmetic of the code: for a viewport with [xMin < xMax]
    and [yMin < yMax], positive [w] and [h], and two selection corners, in
    either order, that lie on pixels [0 .. w - 1] and [0 .. h - 1] of the
    canvas and are at least one pixel apart in each axis, with
    [mapTolerance] below 1 in each axis and no operation underflowing or
    overflowing, the viewport of [createZoomViewport] is well ordered and
    lies within the bounds of the input viewport. *)
Theorem createZoomViewport_subset_rounded (vp : Viewport R) (x1 y1 x2 y2 w h : R) :
  wellOrdered vp -> formatViewport rnd vp -> 0 < w -> 0 < h ->
  0 <= x1 <= w - 1 -> 0 <= x2 <= w - 1 -> 1 <= Rabs (x1 - x2) ->
  0 <= y1 <= h - 1 -> 0 <= y2 <= h - 1 -> 1 <= Rabs (y1 - y2) ->
  mapTolerance eps (xMin vp) (xMax vp) w < 1 ->
  mapTolerance eps (yMin vp) (yMax vp) h < 1 ->
  createZoomViewportInRange rnd lam omega vp x1 y1 x2 y2 w h ->
  wellOrdered (createZoomViewport (N := Rounded.number rnd) vp x1 y1 x2 y2 w h) /\
  withinBounds (createZoomViewport (N := Rounded.number rnd) vp x1 y1 x2 y2 w h) vp.
Proof.
  intros [Hx Hy] (Fx1 & Fx2 & Fy1 & Fy2) Hw Hh Hx1 Hx2 Hxg Hy1 Hy2 Hyg Htx Hty
         [[Hlx Hly] [Hrx Hry]].
  rewrite createZoomViewport_axes. unfold wellOrdered, withinBounds.
  cbn [xMin xMax yMin yMax].
  destruct (createZoomViewport_axis (xMin vp) (xMax vp) w x1 x2
              Hx Fx1 Fx2 Hw Hx1 Hx2 Hxg Htx Hlx Hrx) as (Hxa & Hxb & Hxc).
  destruct (createZoomViewport_axis (yMin vp) (yMax vp) h y1 y2
              Hy Fy1 Fy2 Hh Hy1 Hy2 Hyg Hty Hly Hry) as (Hya & Hyb & Hyc).
  repeat split; lra.
Qed.

(** C4, in the arithmetic of the code: [panViewport] subtracts [dx] and
    [dy], scaled by the rounded size of a pixel, from the four bounds; for
    [xMin < xMax] and [0 < w], as long as no operation underflows or
    overflows, a positive [dx] never raises [xMin] or [xMax], a negative
    [dx] never lowers them, and [dx = 0] leaves them as they are; a pan by
    at least one pixel moves them strictly when [mapTolerance] is below
    1. *)
Theorem panViewport_direction_rounded (vp : Viewport R) (dx dy w h : R) :
  xMin vp < xMax vp -> 0 < w ->
  inFormat rnd (xMin vp) -> inFormat rnd (xMax vp) ->
  panInRange rnd lam omega (xMin vp) (xMax vp) w dx ->
  let p := panViewport (N := Rounded.number rnd) vp dx dy w h in
  let deltaReal := rnd (dx * rnd (rnd (xMax vp - xMin vp) / w)) in
  let deltaImaginary := rnd (dy * rnd (rnd (yMax vp - yMin vp) / h)) in
  p = mkViewport (rnd (xMin vp - deltaReal)) (rnd (xMax vp - deltaReal))
                 (rnd (yMin vp - deltaImaginary)) (rnd (yMax vp - deltaImaginary)) /\
  (0 < dx -> xMin p <= xMin vp /\ xMax p <= xMax vp) /\
  (dx < 0 -> xMin vp <= xMin p /\ xMax vp <= xMax p) /\
  (dx = 0 -> xMin p = xMin vp /\ xMax p = xMax vp) /\
  (mapTolerance eps (xMin vp) (xMax vp) w < 1 ->
   (1 <= dx -> xMin p < xMin vp /\ xMax p < xMax vp) /\
   (dx <= - 1 -> xMin vp < xMin p /\ xMax vp < xMax p)).
Proof.
  intros Hx Hw Hlo Hhi (Hs & Hr & Hrl & Hrh) p deltaReal deltaImaginary.
  split; [reflexivity|].
  unfold p. rewrite panViewport_axes. cbn [xMin xMax].
  pose proof (axisScale_nonneg (xMin vp) (xMax vp) w Hx Hw) as Hs0.
  pose proof rnd_zero as H0.
  destruct (magnitude_bounds (xMin vp) (xMax vp) Hx) as (HMlo & HMhi & _).
  set (s := axisScale rnd (xMin vp) (xMax vp) w) in *.
  split; [|split; [|split]].
  - intros Hdx. assert (0 <= rnd (dx * s)) by (rewrite <- H0 at 1; apply rnd_monotone; nra).
    split.
    + apply Rle_trans with (rnd (xMin vp)); [apply rnd_monotone; lra | rewrite Hlo; lra].
    + apply Rle_trans with (rnd (xMax vp)); [apply rnd_monotone; lra | rewrite Hhi; lra].
  - intros Hdx. assert (rnd (dx * s) <= 0).
    { rewrite <- H0. apply rnd_monotone. nra. }
    split.
    + apply Rle_trans with (rnd (xMin vp)); [rewrite Hlo; lra | apply rnd_monotone; lra].
    + apply Rle_trans with (rnd (xMax vp)); [rewrite Hhi; lra | apply rnd_monotone; lra].
  - intros ->. rewrite Rmult_0_l, H0, !Rminus_0_r. split; assumption.
  - intros Htol. split.
    + intros Hdx. split.
      * apply (pan_axis_strict_down (xMin vp) (xMax vp) w dx (xMin vp)); auto.
      * apply (pan_axis_strict_down (xMin vp) (xMax vp) w dx (xMax vp)); auto.
    + intros Hdx. split.
      * apply (pan_axis_strict_up (xMin vp) (xMax vp) w dx (xMin vp)); auto.
      * apply (pan_axis_strict_up (xMin vp) (xMax vp) w dx (xMax vp)); auto.
Qed.

(** C10, in the arithmetic of the code: for every viewport, every [dx]
    and [dy] and nonzero [w] and [h], as long as no operation underflows or
    overflows, the extents of the viewport of [panViewport] differ from
    those of the input by at most [2 * eps] times the sum of the magnitudes
    of the two new bounds of the axis. *)
Theorem panViewport_keeps_extents_rounded (vp : Viewport R) (dx dy w h : R) :
  w <> 0 -> h <> 0 ->
  panViewportInRange rnd lam omega vp dx dy w h ->
  let p := panViewport (N := Rounded.number rnd) vp dx dy w h in
  Rabs ((xMax p - xMin p) - (xMax vp - xMin vp))
    <= 2 * eps * (Rabs (xMin p) + Rabs (xMax p)) /\
  Rabs ((yMax p - yMin p) - (yMax vp - yMin vp))
    <= 2 * eps * (Rabs (yMin p) + Rabs (yMax p)).
Proof.
  intros _ _ [(_ & _ & Hxl & Hxh) (_ & _ & Hyl & Hyh)] p.
  unfold p. rewrite panViewport_axes. cbn [xMin xMax yMin yMax].
  split.
  - apply pan_axis_extent; assumption.
  - apply pan_axis_extent; assumption.
Qed.

(** X17, in the arithmetic of the code: a zoom by a positive factor gives
    a viewport whose lower bounds are not above its upper bounds, and a zoom
    by a negative factor gives one whose upper bounds are not above its
    lower bounds, for a well-ordered viewport and as long as no operation
    underflows or overflows. *)
Theorem zoomAtPoint_orientation_rounded (vp : Viewport R) (cx cy z w h : R) :
  wellOrdered vp -> w <> 0 -> h <> 0 ->
  zoomAtPointInRange rnd lam omega vp cx cy z w h ->
  let r := zoomAtPoint (N := Rounded.number rnd) vp cx cy z w h in
  (0 < z -> xMin r <= xMax r /\ yMin r <= yMax r) /\
  (z < 0 -> xMax r <= xMin r /\ yMax r <= yMin r).
Proof.
  intros [Hx Hy] _ _ _ r. unfold r. rewrite zoomAtPoint_axes.
  cbn [xMin xMax yMin yMax]. unfold axisScale.
  assert (Hdx : 0 <= rnd (xMax vp - xMin vp)) by (apply rnd_nonneg; lra).
  assert (Hdy : 0 <= rnd (yMax vp - yMin vp)) by (apply rnd_nonneg; lra).
  set (dx := rnd (xMax vp - xMin vp)) in *. set (dy := rnd (yMax vp - yMin vp)) in *.
  split; intros Hz.
  - assert (Hk : 0 < / z) by now apply Rinv_0_lt_compat.
    assert (0 <= rnd (rnd (dx / z) / 2)).
    { apply rnd_nonneg. assert (0 <= rnd (dx / z)); [|lra].
      apply rnd_nonneg. unfold Rdiv. nra. }
    assert (0 <= rnd (rnd (dy / z) / 2)).
    { apply rnd_nonneg. assert (0 <= rnd (dy / z)); [|lra].
      apply rnd_nonneg. unfold Rdiv. nra. }
    split; apply rnd_monotone; lra.
  - assert (Hk : / z < 0) by now apply Rinv_lt_0_compat.
    assert (rnd (rnd (dx / z) / 2) <= 0).
    { apply rnd_nonpos. assert (rnd (dx / z) <= 0); [|lra].
      apply rnd_nonpos. unfold Rdiv. nra. }
    assert (rnd (rnd (dy / z) / 2) <= 0).
    { apply rnd_nonpos. assert (rnd (dy / z) <= 0); [|lra].
      apply rnd_nonpos. unfold Rdiv. nra. }
    split; apply rnd_monotone; lra.
Qed.

End RoundedViewport.
(** ** Roundings of this kind, and instances of the statements

    A grid of spacing 1/1024 rounds with a relative error of at most 1/2048
    every result of magnitude at least 1; the rounding that changes nothing
    meets every assumption with the parameters of binary64, and is the one
    of the instances below, on the default viewport and an 800 x 600
    canvas. *)

Section RoundedInstances.
Local Open Scope R_scope.

Lemma toGrid_roundsWithin (omega : R) : roundsWithin (/ 2048) 1 omega Rounded.toGrid.
Proof.
  intros v Hv. unfold Rounded.toGrid.
  destruct (base_Int_part (v * 1024 + / 2)) as [Hle Hlt].
  set (k := IZR (Int_part (v * 1024 + / 2))) in *.
  destruct Hv as [-> | [Hlo _]].
  - assert (Hk : k = 0).
    { unfold k. replace (0 * 1024 + / 2) with (/ 2) by ring.
      replace (Int_part (/ 2)) with 0%Z; [reflexivity|].
      apply Int_part_spec. simpl. lra. }
    rewrite Hk, Rabs_R0. unfold Rdiv. rewrite Rmult_0_l, Rminus_0_r, Rabs_R0. lra.
  - apply Rabs_le. lra.
Qed.

Lemma identity_monotone : monotone Rounded.identity.
Proof. intros u v H. exact H. Qed.

Lemma identity_fixesBytes : fixesBytes Rounded.identity.
Proof. intros n _. reflexivity. Qed.

Lemma identity_roundsWithin (eps lam omega : R) :
  0 <= eps -> roundsWithin eps lam omega Rounded.identity.
Proof.
  intros He v _. unfold Rounded.identity. rewrite Rminus_diag, Rabs_R0.
  apply Rmult_le_pos; [exact He | apply Rabs_pos].
Qed.

Lemma unitRoundoff_range : 0 <= unitRoundoff /\ unitRoundoff <= / 8.
Proof. unfold unitRoundoff, twoTo53. split; lra. Qed.

Local Abbreviation defaultViewport :=
  (getDefaultViewport (N := Rounded.number Rounded.identity)).

Ltac in_range :=
  unfold inRange, smallestNormal, largestFinite, twoTo1022, maxFinite;
  first [ left; lra
        | right; unfold Rabs; destruct (Rcase_abs _); split; lra ].

Ltac ranges :=
  cbv [roundTripInRange pixelToComplexInRange createZoomViewportInRange
       panViewportInRange zoomAtPointInRange forwardInRange backwardInRange
       scaleInRange panInRange zoomInRange axisForward axisBackward axisScale
       Rmin Rmax xMin xMax yMin yMax getDefaultViewport of_Z num_div
       Rounded.number Rounded.identity];
  repeat match goal with |- context [Rle_dec ?a ?c] => destruct (Rle_dec a c); try lra end;
  repeat split; in_range.

Lemma defaultViewport_wellOrdered : wellOrdered defaultViewport.
Proof. unfold wellOrdered. cbn. unfold Rounded.identity. lra. Qed.

Lemma defaultViewport_format : formatViewport Rounded.identity defaultViewport.
Proof. repeat split. Qed.

Lemma defaultViewport_tolerance :
  mapTolerance unitRoundoff (xMin defaultViewport) (xMax defaultViewport) 800 < / 2 /\
  mapTolerance unitRoundoff (yMin defaultViewport) (yMax defaultViewport) 600 < / 2.
Proof.
  cbv [mapTolerance unitRoundoff twoTo53 Rmax Rabs xMin xMax yMin yMax
       getDefaultViewport of_Z num_div Rounded.number Rounded.identity].
  repeat match goal with |- context [Rcase_abs ?a] => destruct (Rcase_abs a); try lra end.
  all: repeat match goal with
              | |- context [Rle_dec ?a ?c] => destruct (Rle_dec a c); try lra
              end.
Qed.

Lemma complexToPixel_pixelToComplex_rounded_witness :
  x (complexToPixel (N := Rounded.number Rounded.identity)
       (real (pixelToComplex (N := Rounded.number Rounded.identity)
                400 300 800 600 defaultViewport))
       (imaginary (pixelToComplex (N := Rounded.number Rounded.identity)
                     400 300 800 600 defaultViewport))
       800 600 defaultViewport) = 400.
Proof.
  exact (proj1 (proj2 (proj2
    (complexToPixel_pixelToComplex_rounded Rounded.identity
       unitRoundoff smallestNormal largestFinite
       (proj1 unitRoundoff_range) (proj2 unitRoundoff_range)
       (identity_roundsWithin _ _ _ (proj1 unitRoundoff_range))
       defaultViewport 800 600 400 300 defaultViewport_wellOrdered
       ltac:(lra) ltac:(lra) ltac:(lra) ltac:(lra) ltac:(ranges))))
    400%Z eq_refl (proj1 defaultViewport_tolerance)).
Defined.

Lemma zoomAtPoint_extents_and_centre_rounded_witness :
  Rabs ((xMax (zoomAtPoint (N := Rounded.number Rounded.identity)
                 defaultViewport 400 300 2 800 600)
         - xMin (zoomAtPoint (N := Rounded.number Rounded.identity)
                   defaultViewport 400 300 2 800 600))
        - (xMax defaultViewport - xMin defaultViewport) / 2)
  <= unitRoundoff *
     (2 * Rabs (real (pixelToComplex (N := Rounded.number Rounded.identity)
                        400 300 800 600 defaultViewport))
      + 7 * ((xMax defaultViewport - xMin defaultViewport) / 2)).
Proof.
  exact (proj1 (proj1
    (zoomAtPoint_extents_and_centre_rounded Rounded.identity
       unitRoundoff smallestNormal largestFinite
       (proj1 unitRoundoff_range) (proj2 unitRoundoff_range)
       identity_monotone identity_fixesBytes
       (identity_roundsWithin _ _ _ (proj1 unitRoundoff_range))
       defaultViewport 400 300 800 600 defaultViewport_wellOrdered
       ltac:(lra) ltac:(lra) ltac:(ranges) ltac:(ranges)))).
Defined.

Lemma createZoomViewport_subset_rounded_witness :
  wellOrdered (createZoomViewport (N := Rounded.number Rounded.identity)
                 defaultViewport 300 300 100 100 800 600) /\
  withinBounds (createZoomViewport (N := Rounded.number Rounded.identity)
                  defaultViewport 300 300 100 100 800 600) defaultViewport.
Proof.
  apply (createZoomViewport_subset_rounded Rounded.identity
           unitRoundoff smallestNormal largestFinite
           (proj1 unitRoundoff_range) (proj2 unitRoundoff_range)
           identity_monotone
           (identity_roundsWithin _ _ _ (proj1 unitRoundoff_range))
           defaultViewport 300 300 100 100 800 600 defaultViewport_wellOrdered
           defaultViewport_format).
  - lra.
  - lra.
  - lra.
  - lra.
  - unfold Rabs; destruct (Rcase_abs _); lra.
  - lra.
  - lra.
  - unfold Rabs; destruct (Rcase_abs _); lra.
  - pose proof (proj1 defaultViewport_tolerance). lra.
  - pose proof (proj2 defaultViewport_tolerance). lra.
  - ranges.
Defined.

Lemma panViewport_direction_rounded_witness :
  xMin (panViewport (N := Rounded.number Rounded.identity) defaultViewport 50 0 800 600)
  < xMin defaultViewport.
Proof.
  exact (proj1 (proj1 (proj2 (proj2 (proj2 (proj2
    (panViewport_direction_rounded Rounded.identity
       unitRoundoff smallestNormal largestFinite
       (proj1 unitRoundoff_range) (proj2 unitRoundoff_range)
       identity_monotone
       (identity_roundsWithin _ _ _ (proj1 unitRoundoff_range))
       defaultViewport 50 0 800 600 (proj1 defaultViewport_wellOrdered) ltac:(lra)
       eq_refl eq_refl ltac:(ranges)))))
    ltac:(pose proof (proj1 defaultViewport_tolerance); lra)) ltac:(lra))).
Defined.

Lemma panViewport_keeps_extents_rounded_witness :
  Rabs ((xMax (panViewport (N := Rounded.number Rounded.identity)
                 defaultViewport 50 (-20) 800 600)
         - xMin (panViewport (N := Rounded.number Rounded.identity)
                   defaultViewport 50 (-20) 800 600))
        - (xMax defaultViewport - xMin defaultViewport))
  <= 2 * unitRoundoff *
     (Rabs (xMin (panViewport (N := Rounded.number Rounded.identity)
                    defaultViewport 50 (-20) 800 600))
      + Rabs (xMax (panViewport (N := Rounded.number Rounded.identity)
                      defaultViewport 50 (-20) 800 600))).
Proof.
  exact (proj1
    (panViewport_keeps_extents_rounded Rounded.identity
       unitRoundoff smallestNormal largestFinite
       (proj1 unitRoundoff_range) (proj2 unitRoundoff_range)
       (identity_roundsWithin _ _ _ (proj1 unitRoundoff_range))
       defaultViewport 50 (-20) 800 600 ltac:(lra) ltac:(lra) ltac:(ranges))).
Defined.

Lemma zoomAtPoint_orientation_rounded_witness :
  xMin (zoomAtPoint (N := Rounded.number Rounded.identity)
          defaultViewport 400 300 2 800 600)
  <= xMax (zoomAtPoint (N := Rounded.number Rounded.identity)
             defaultViewport 400 300 2 800 600).
Proof.
  exact (proj1 (proj1
    (zoomAtPoint_orientation_rounded Rounded.identity
       unitRoundoff smallestNormal largestFinite
       identity_monotone identity_fixesBytes
       (identity_roundsWithin _ _ _ (proj1 unitRoundoff_range))
       defaultViewport 400 300 2 800 600 defaultViewport_wellOrdered
       ltac:(lra) ltac:(lra) ltac:(ranges)) ltac:(lra))).
Defined.

End RoundedInstances.

(** * The viewport algebra on binary64 numbers *)

Section Binary64Viewport.
Local Open Scope float_scope.

(** C2 on binary64: at the deep-zoom viewport, which is well ordered, the
    interior pixel (50, 50) of an 800 x 600 canvas comes back as (0, 50). *)
Lemma complexToPixel_pixelToComplex_binary64 :
  (xMin Binary64.deepZoomViewport <? xMax Binary64.deepZoomViewport) = true /\
  (yMin Binary64.deepZoomViewport <? yMax Binary64.deepZoomViewport) = true /\
  let c := pixelToComplex (N := Binary64.number) 50 50 800 600 Binary64.deepZoomViewport in
  let p := complexToPixel (N := Binary64.number)
             (real c) (imaginary c) 800 600 Binary64.deepZoomViewport in
  p = mkPixel 0 50 /\ (abs (x p - 50) <=? 0.5) = false.
Proof. vm_compute. repeat split; reflexivity. Qed.

(** C3 on binary64: at the default viewport and an 800 x 600 canvas, zooming
    out by 0.5 at pixel (400, 300) gives a viewport whose centre differs from
    the complex point of that pixel, and zooming in by 2 at pixel (3, 7)
    gives a height that is not half the original. *)
Lemma zoomAtPoint_binary64 :
  let vp := getDefaultViewport (N := Binary64.number) in
  let zout := zoomAtPoint vp 400 300 0.5 800 600 in
  let zin := zoomAtPoint vp 3 7 2 800 600 in
  ((xMin zout + xMax zout) / 2 =? real (pixelToComplex 400 300 800 600 vp)) = false /\
  (yMax zin - yMin zin =? (yMax vp - yMin vp) / 2) = false.
Proof. vm_compute. split; reflexivity. Qed.

(** C4 on binary64: at the deep-zoom viewport a pan by [dx = +50] pixels of
    an 800 x 600 canvas moves neither [xMin] nor [xMax]. *)
Lemma panViewport_direction_binary64 :
  (xMin Binary64.deepZoomViewport <? xMax Binary64.deepZoomViewport) = true /\
  let p := panViewport (N := Binary64.number) Binary64.deepZoomViewport 50 0 800 600 in
  (xMin p <? xMin Binary64.deepZoomViewport) = false /\
  (xMax p <? xMax Binary64.deepZoomViewport) = false /\
  p = Binary64.deepZoomViewport.
Proof. vm_compute. repeat split; reflexivity. Qed.

(** C10 on binary64: panning the viewport [0, 1] x [0, 1] by [dx = -50]
    pixels of a 600 x 600 canvas changes its width. *)
Lemma panViewport_keeps_extents_binary64 :
  let p := panViewport (N := Binary64.number) Binary64.unitViewport (-50) 0 600 600 in
  (xMax p - xMin p =? xMax Binary64.unitViewport - xMin Binary64.unitViewport) = false /\
  (xMax p - xMin p <? 1) = true.
Proof. vm_compute. split; reflexivity. Qed.

(** C2 on binary64, default viewport: every integer pixel of an 800 x 600
    canvas, the edges included, comes back as itself. *)
Lemma complexToPixel_pixelToComplex_binary64_default (px py : Z) :
  (0 <= px <= 800)%Z -> (0 <= py <= 600)%Z ->
  let vp := getDefaultViewport (N := Binary64.number) in
  let c := pixelToComplex (N := Binary64.number)
             (Binary64.of_Z px) (Binary64.of_Z py) 800 600 vp in
  let p := complexToPixel (N := Binary64.number) (real c) (imaginary c) 800 600 vp in
  (x p =? Binary64.of_Z px) = true /\ (y p =? Binary64.of_Z py) = true.
Proof.
  intros Hpx Hpy vp c p.
  assert (Hx : forallb (fun k =>
            x (complexToPixel (N := Binary64.number)
                 (real (pixelToComplex (N := Binary64.number)
                          (Binary64.of_Z k) 0 800 600 vp)) 0 800 600 vp)
            =? Binary64.of_Z k) (seqZ 0 801) = true) by (vm_compute; reflexivity).
  assert (Hy : forallb (fun k =>
            y (complexToPixel (N := Binary64.number) 0
                 (imaginary (pixelToComplex (N := Binary64.number)
                          0 (Binary64.of_Z k) 800 600 vp)) 800 600 vp)
            =? Binary64.of_Z k) (seqZ 0 601) = true) by (vm_compute; reflexivity).
  rewrite forallb_forall in Hx, Hy.
  specialize (Hx px). rewrite <- list_elem_of_In in Hx.
  specialize (Hx ltac:(apply elem_of_seqZ; lia)).
  specialize (Hy py). rewrite <- list_elem_of_In in Hy.
  specialize (Hy ltac:(apply elem_of_seqZ; lia)).
  split; [exact Hx | exact Hy].
Qed.

(** C3 on binary64: zooming in by 2 at the centre of a 4 x 4 canvas, the
    viewport whose width is one unit in the last place of its bounds gets
    width 0, not half its width, and the viewport of width 512 at 2^60 keeps
    its width 512 instead of getting 256.  Both viewports have positive
    extents. *)
Lemma zoomAtPoint_binary64_far_from_half :
  let thin := mkViewport 1 (1 + 0x1p-52) 0 1 in
  let far := mkViewport 0x1p60 (0x1p60 + 512) 0 1 in
  let zthin := zoomAtPoint (N := Binary64.number) thin 2 2 2 4 4 in
  let zfar := zoomAtPoint (N := Binary64.number) far 2 2 2 4 4 in
  ((xMin thin <? xMax thin) = true /\ (yMin thin <? yMax thin) = true /\
   xMax zthin - xMin zthin = 0 /\ (xMax thin - xMin thin) / 2 = 0x1p-53) /\
  ((xMin far <? xMax far) = true /\ (yMin far <? yMax far) = true /\
   xMax zfar - xMin zfar = 512 /\ (xMax far - xMin far) / 2 = 256).
Proof. vm_compute. repeat split; reflexivity. Qed.

(** C5 on binary64, 800 x 600 canvas: at the default viewport, a selection
    whose two corners share their [x] coordinate gives [xMin = xMax], a
    selection that extends beyond the canvas gives a viewport beyond the
    input bounds, and so does, by one rounding, the selection of the whole
    canvas; at the deep-zoom viewport, which is well ordered, a selection 20
    pixels wide gives [xMin = xMax]. *)
Lemma createZoomViewport_binary64_edges :
  let vp := getDefaultViewport (N := Binary64.number) in
  let flat := createZoomViewport vp 100 100 100 300 800 600 in
  let wide := createZoomViewport vp (-100) 100 300 300 800 600 in
  let whole := createZoomViewport vp 0 0 800 600 800 600 in
  let deep := createZoomViewport (N := Binary64.number)
                Binary64.deepZoomViewport 100 100 120 300 800 600 in
  (xMin flat <? xMax flat) = false /\
  (xMin vp <=? xMin wide) = false /\
  (xMax whole <=? xMax vp) = false /\
  ((xMin Binary64.deepZoomViewport <? xMax Binary64.deepZoomViewport) = true /\
   (yMin Binary64.deepZoomViewport <? yMax Binary64.deepZoomViewport) = true /\
   (xMin deep <? xMax deep) = false).
Proof. vm_compute. repeat split; reflexivity. Qed.

(** C4 and C10 on binary64, on overflow: the extent of the viewport
    [-2^1023, 2^1023] is not finite, and a pan by [dx = 0] turns its
    bounds into NaN. *)
Lemma panViewport_binary64_overflow :
  let vp := mkViewport (-0x1p1023) 0x1p1023 0 1 in
  let p := panViewport (N := Binary64.number) vp 0 0 800 600 in
  (xMin vp <? xMax vp) = true /\
  is_finite (xMax vp - xMin vp) = false /\
  is_nan (xMin p) = true /\ is_nan (xMax p) = true.
Proof. vm_compute. repeat split; reflexivity. Qed.

End Binary64Viewport.

(** * Further properties of the escape-time evaluator *)

Section EscapeTimeLimit.
Context {num : Type} {N : JsNumber num}.
Local Open Scope js_scope.

(** Run with a lower limit, the loop stops where the run with the higher
    limit stops, unless the lower limit comes first. *)
Lemma mandelbrotLoop_truncates cx cy m1 m2 :
  m1 <= m2 ->
  forall fuel1 fuel2 x0 y0 i,
  i <= m1 ->
  (Z.to_nat (m1 - i) <= fuel1)%nat -> (Z.to_nat (m2 - i) <= fuel2)%nat ->
  mandelbrotLoop fuel1 cx cy m1 x0 y0 i
  = Z.min m1 (mandelbrotLoop fuel2 cx cy m2 x0 y0 i).
Proof.
  intros Hm. induction fuel1 as [|fuel1 IH]; intros fuel2 x0 y0 i Hi Hf1 Hf2.
  - pose proof (mandelbrotLoop_bounds fuel2 cx cy m2 x0 y0 i). simpl. lia.
  - pose proof (mandelbrotLoop_bounds fuel2 cx cy m2 x0 y0 i) as Hb.
    simpl. destruct (x0 * x0 + y0 * y0 <=? lit 4) eqn:Hnorm; simpl.
    + destruct (Z.ltb_spec i m1) as [Hlt|Hge]; [|lia].
      destruct fuel2 as [|fuel2]; [lia|].
      simpl. rewrite Hnorm. simpl.
      destruct (Z.ltb_spec i m2); [|lia].
      apply IH; lia.
    + destruct fuel2 as [|fuel2]; simpl; [lia|].
      rewrite Hnorm. simpl. lia.
Qed.

(** X1: for a limit [m >= 0] the count returned lies in [0, m], for every
    point and every number instance. *)
Theorem calculateMandelbrot_count_range (cx cy : num) (m : Z) :
  0 <= m ->
  0 <= calculateMandelbrot cx cy m <= m.
Proof.
  intros Hm. unfold calculateMandelbrot.
  pose proof (mandelbrotLoop_bounds (Z.to_nat m) cx cy m (lit 0) (lit 0) 0) as Hb.
  lia.
Qed.

(** X2: lowering the limit only cuts the count off: for
    [0 <= m1 <= m2] the count under [m1] is the smaller of [m1] and the count
    under [m2].  So a higher limit never gives a lower count, and a point
    that escapes before [m1] has the same count under both. *)
Theorem calculateMandelbrot_lower_limit (cx cy : num) (m1 m2 : Z) :
  0 <= m1 <= m2 ->
  calculateMandelbrot cx cy m1 = Z.min m1 (calculateMandelbrot cx cy m2).
Proof.
  intros [Hm1 Hm]. unfold calculateMandelbrot.
  apply mandelbrotLoop_truncates; lia.
Qed.

End EscapeTimeLimit.

Lemma calculateMandelbrot_count_range_witness :
  0 <= 100 /\
  0 <= calculateMandelbrot (N := Binary64.number) 0.25%float 0.5%float 100 <= 100.
Proof.
  split; [lia|].
  apply (calculateMandelbrot_count_range (N := Binary64.number) 0.25%float 0.5%float 100).
  lia.
Defined.

Lemma calculateMandelbrot_lower_limit_witness :
  0 <= 10 <= 100 /\
  calculateMandelbrot (N := Binary64.number) 1%float 0%float 10
  = Z.min 10 (calculateMandelbrot (N := Binary64.number) 1%float 0%float 100).
Proof.
  split; [lia|].
  apply (calculateMandelbrot_lower_limit (N := Binary64.number) 1%float 0%float 10 100).
  lia.
Defined.

(** Without rounding, for the instance of the set pixel below. *)
Section EscapeTimeExact.
Local Open Scope R_scope.

Lemma leb_true (a c : R) : a <= c -> Exact.leb a c = true.
Proof. intros H. unfold Exact.leb. destruct (Rle_dec a c); [reflexivity | contradiction]. Qed.

(** The orbit of a point of the disc of radius 1/4 stays in the disc of
    radius 1/2. *)
Lemma orbit_stays_small (cx cy x0 y0 : R) :
  cx * cx + cy * cy <= / 16 -> x0 * x0 + y0 * y0 <= / 4 ->
  (x0 * x0 - y0 * y0 + cx) * (x0 * x0 - y0 * y0 + cx)
  + (2 * x0 * y0 + cy) * (2 * x0 * y0 + cy) <= / 4.
Proof.
  intros Hc Hz.
  set (u := x0 * x0 - y0 * y0). set (v := 2 * x0 * y0).
  assert (Huv : u * u + v * v = (x0 * x0 + y0 * y0) * (x0 * x0 + y0 * y0))
    by (unfold u, v; ring).
  assert (Hsq : (x0 * x0 + y0 * y0) * (x0 * x0 + y0 * y0) <= / 16).
  { assert (0 <= x0 * x0 + y0 * y0) by nra.
    assert ((x0 * x0 + y0 * y0) * (x0 * x0 + y0 * y0) <= / 4 * / 4)
      by (apply Rmult_le_compat; lra).
    lra. }
  assert (Hcross : 2 * (u * cx + v * cy) <= u * u + v * v + (cx * cx + cy * cy)).
  { pose proof (Rle_0_sqr (u - cx)) as H1. pose proof (Rle_0_sqr (v - cy)) as H2.
    unfold Rsqr in H1, H2. lra. }
  clearbody u v.
  replace ((u + cx) * (u + cx) + (v + cy) * (v + cy))
    with (u * u + v * v + 2 * (u * cx + v * cy) + (cx * cx + cy * cy)) by ring.
  lra.
Qed.

Lemma mandelbrotLoop_small (cx cy : R) (m : Z) :
  cx * cx + cy * cy <= / 16 ->
  forall fuel x0 y0 i,
  x0 * x0 + y0 * y0 <= / 4 -> (i <= m)%Z -> (Z.to_nat (m - i) <= fuel)%nat ->
  mandelbrotLoop (N := Exact.number) fuel cx cy m x0 y0 i = m.
Proof.
  intros Hc. induction fuel as [|fuel IH]; intros x0 y0 i Hz Hi Hf.
  - simpl. lia.
  - cbn [mandelbrotLoop of_Z num_add num_sub num_mul num_leb Exact.number].
    rewrite leb_true by lra.
    destruct (Z.ltb_spec i m); cbn [andb]; [|lia].
    apply IH; [|lia|lia]. now apply orbit_stays_small.
Qed.

End EscapeTimeExact.

Section EscapeTimeRounded.
Local Open Scope R_scope.
Variable rnd : R -> R.
Hypothesis rnd_monotone : monotone rnd.
Hypothesis rnd_sixteenths : fixesSixteenths rnd.

Lemma rnd_sixteenths_between (lo hi : Z) (v : R) :
  (- 64 <= lo <= 64)%Z -> (- 64 <= hi <= 64)%Z ->
  IZR lo / 16 <= v <= IZR hi / 16 -> IZR lo / 16 <= rnd v <= IZR hi / 16.
Proof.
  intros Hlo Hhi [H1 H2].
  pose proof (rnd_monotone _ _ H1) as A. rewrite (rnd_sixteenths lo Hlo) in A.
  pose proof (rnd_monotone _ _ H2) as B. rewrite (rnd_sixteenths hi Hhi) in B.
  split; assumption.
Qed.

Lemma rnd_literal (n : Z) : (- 4 <= n <= 4)%Z -> rnd (IZR n) = IZR n.
Proof.
  intros Hn. replace (IZR n) with (IZR (n * 16) / 16)
    by (rewrite mult_IZR; field).
  apply rnd_sixteenths. lia.
Qed.

(** One step of the orbit of a point of the square keeps the orbit in the
    square of half-side 1/4, whose points pass the escape test. *)
Lemma orbit_stays_in_square (cx cy x0 y0 : R) :
  - / 8 <= cx <= / 8 -> - / 8 <= cy <= / 8 ->
  - / 4 <= x0 <= / 4 -> - / 4 <= y0 <= / 4 ->
  rnd (rnd (x0 * x0) + rnd (y0 * y0)) <= 4 /\
  - / 4 <= rnd (rnd (rnd (x0 * x0) - rnd (y0 * y0)) + cx) <= / 4 /\
  - / 4 <= rnd (rnd (rnd (2 * x0) * y0) + cy) <= / 4.
Proof.
  intros Hcx Hcy Hx Hy.
  assert (Hxx : IZR 0 / 16 <= rnd (x0 * x0) <= IZR 1 / 16)
    by (apply rnd_sixteenths_between; [lia | lia | split; nra]).
  assert (Hyy : IZR 0 / 16 <= rnd (y0 * y0) <= IZR 1 / 16)
    by (apply rnd_sixteenths_between; [lia | lia | split; nra]).
  assert (Hsum : IZR 0 / 16 <= rnd (rnd (x0 * x0) + rnd (y0 * y0)) <= IZR 2 / 16)
    by (apply rnd_sixteenths_between; [lia | lia | lra]).
  assert (Hdiff : IZR (-1) / 16 <= rnd (rnd (x0 * x0) - rnd (y0 * y0)) <= IZR 1 / 16)
    by (apply rnd_sixteenths_between; [lia | lia | lra]).
  assert (Hre : IZR (-3) / 16 <= rnd (rnd (rnd (x0 * x0) - rnd (y0 * y0)) + cx)
                <= IZR 3 / 16)
    by (apply rnd_sixteenths_between; [lia | lia | lra]).
  assert (H2x : IZR (-8) / 16 <= rnd (2 * x0) <= IZR 8 / 16)
    by (apply rnd_sixteenths_between; [lia | lia | lra]).
  assert (Hxy : IZR (-2) / 16 <= rnd (rnd (2 * x0) * y0) <= IZR 2 / 16)
    by (apply rnd_sixteenths_between; [lia | lia | split; nra]).
  assert (Him : IZR (-4) / 16 <= rnd (rnd (rnd (2 * x0) * y0) + cy) <= IZR 4 / 16)
    by (apply rnd_sixteenths_between; [lia | lia | lra]).
  repeat split; lra.
Qed.

Lemma mandelbrotLoop_in_square (cx cy : R) (m : Z) :
  - / 8 <= cx <= / 8 -> - / 8 <= cy <= / 8 ->
  forall fuel x0 y0 i,
  - / 4 <= x0 <= / 4 -> - / 4 <= y0 <= / 4 ->
  (i <= m)%Z -> (Z.to_nat (m - i) <= fuel)%nat ->
  mandelbrotLoop (N := Rounded.number rnd) fuel cx cy m x0 y0 i = m.
Proof.
  intros Hcx Hcy. induction fuel as [|fuel IH]; intros x0 y0 i Hx Hy Hi Hf.
  - simpl. lia.
  - cbn [mandelbrotLoop of_Z num_add num_sub num_mul num_leb Rounded.number].
    rewrite (rnd_literal 4 ltac:(lia)), (rnd_literal 2 ltac:(lia)).
    destruct (orbit_stays_in_square cx cy x0 y0 Hcx Hcy Hx Hy) as (Ht & Hx' & Hy').
    rewrite leb_true by exact Ht.
    destruct (Z.ltb_spec i m); cbn [andb]; [|lia].
    apply IH; [exact Hx' | exact Hy' | lia | lia].
Qed.

(** X4, in the arithmetic of the code: a point of the square
    [-1/8 <= cx, cy <= 1/8] never escapes: its count is the limit, for every
    limit [m >= 0] and every monotone rounding that keeps the multiples of
    1/16 from -4 to 4. *)
Theorem calculateMandelbrot_inside_square (cx cy : R) (m : Z) :
  - / 8 <= cx <= / 8 -> - / 8 <= cy <= / 8 -> (0 <= m)%Z ->
  calculateMandelbrot (N := Rounded.number rnd) cx cy m = m.
Proof.
  intros Hcx Hcy Hm. unfold calculateMandelbrot.
  cbn [of_Z Rounded.number]. rewrite (rnd_literal 0 ltac:(lia)).
  apply mandelbrotLoop_in_square; [exact Hcx | exact Hcy | lra | lra | lia | lia].
Qed.

End EscapeTimeRounded.

Section EscapeTimeGrid.
Local Open Scope R_scope.

Lemma toGrid_fixesSixteenths : fixesSixteenths Rounded.toGrid.
Proof.
  intros n Hn. unfold Rounded.toGrid.
  replace (Int_part (IZR n / 16 * 1024 + / 2)) with (n * 64)%Z.
  - rewrite mult_IZR. field.
  - apply Int_part_spec. rewrite mult_IZR. lra.
Qed.

Lemma calculateMandelbrot_inside_square_witness :
  calculateMandelbrot (N := Rounded.number Rounded.toGrid) (/ 8) (- / 8) 100 = 100%Z.
Proof.
  exact (calculateMandelbrot_inside_square Rounded.toGrid toGrid_monotone
           toGrid_fixesSixteenths (/ 8) (- / 8) 100
           ltac:(lra) ltac:(lra) ltac:(lia)).
Defined.

End EscapeTimeGrid.

(** * The escape-time evaluator and the renderer on special points *)

Section Binary64NaN.
Local Open Scope float_scope.

Lemma is_nan_spec (f : float) : is_nan f = true -> Prim2SF f = S754_nan.
Proof.
  unfold is_nan. rewrite FloatAxioms.eqb_spec. unfold SFeqb.
  destruct (Prim2SF f) as [s| s | |s m e]; simpl; try reflexivity.
  - discriminate.
  - destruct s; discriminate.
  - rewrite Z.compare_refl, Pos.compare_cont_refl. destruct s; discriminate.
Qed.

Lemma nan_add_l (a c : float) : Prim2SF a = S754_nan -> Prim2SF (a + c) = S754_nan.
Proof. intros Ha. rewrite add_spec, Ha. reflexivity. Qed.

Lemma nan_add_r (a c : float) : Prim2SF c = S754_nan -> Prim2SF (a + c) = S754_nan.
Proof.
  intros Hc. rewrite add_spec, Hc. unfold SF64add, SFadd.
  destruct (Prim2SF a); reflexivity.
Qed.

Lemma nan_mul_l (a c : float) : Prim2SF a = S754_nan -> Prim2SF (a * c) = S754_nan.
Proof. intros Ha. rewrite mul_spec, Ha. reflexivity. Qed.

Lemma nan_leb (a c : float) : Prim2SF a = S754_nan -> (a <=? c) = false.
Proof. intros Ha. rewrite leb_spec, Ha. reflexivity. Qed.

(** X5: on binary64, a point with a NaN coordinate is counted as escaping
    after one iteration. *)
Theorem calculateMandelbrot_nan_binary64 (cx cy : float) (m : Z) :
  is_nan cx = true \/ is_nan cy = true -> (1 <= m)%Z ->
  calculateMandelbrot (N := Binary64.number) cx cy m = 1%Z.
Proof.
  intros Hnan Hm. unfold calculateMandelbrot.
  replace (Z.to_nat m) with (S (Z.to_nat (m - 1))) by lia.
  cbn [mandelbrotLoop num_add num_sub num_mul num_leb Binary64.number].
  change ((of_Z 0 * of_Z 0 + of_Z 0 * of_Z 0 <=? of_Z 4)) with true.
  destruct (Z.ltb_spec 0 m); [|lia]. cbn [andb].
  destruct (Z.to_nat (m - 1)) as [|fuel]; [reflexivity|].
  cbn [mandelbrotLoop num_add num_sub num_mul num_leb Binary64.number].
  rewrite nan_leb; [reflexivity|].
  destruct Hnan as [Hx|Hy].
  - apply nan_add_l, nan_mul_l, nan_add_r, is_nan_spec, Hx.
  - apply nan_add_r, nan_mul_l, nan_add_r, is_nan_spec, Hy.
Qed.

End Binary64NaN.

Lemma calculateMandelbrot_nan_binary64_witness :
  (is_nan nan = true \/ is_nan 0.5%float = true) /\ 1 <= 100 /\
  calculateMandelbrot (N := Binary64.number) nan 0.5%float 100 = 1.
Proof.
  split; [left; reflexivity|]. split; [lia|].
  apply (calculateMandelbrot_nan_binary64 nan 0.5%float 100); [left; reflexivity | lia].
Defined.

Section Binary64Escape.
Local Open Scope float_scope.

(** After the first iteration the orbit is at [0 + c]; its square is that
    of [c], also when [c] is -0. *)
Lemma zero_plus_square (c : float) : (0 + c) * (0 + c) = c * c.
Proof.
  apply Prim2SF_inj. rewrite !mul_spec, add_spec.
  change (Prim2SF 0) with (S754_zero false).
  destruct (Prim2SF c) as [s|s| |s m e]; try reflexivity.
  destruct s; reflexivity.
Qed.

(** X3, on binary64: a point that fails the escape test
    [cx * cx + cy * cy <= 4], computed as the code computes it, is counted
    as escaping after one iteration, for every limit of at least 1. *)
Theorem calculateMandelbrot_escapes_binary64 (cx cy : float) (m : Z) :
  (1 <= m)%Z -> (cx * cx + cy * cy <=? 4) = false ->
  calculateMandelbrot (N := Binary64.number) cx cy m = 1%Z.
Proof.
  intros Hm Hout. unfold calculateMandelbrot.
  replace (Z.to_nat m) with (S (Z.to_nat (m - 1))) by lia.
  cbn [mandelbrotLoop num_add num_sub num_mul num_leb Binary64.number].
  change ((of_Z 0 * of_Z 0 + of_Z 0 * of_Z 0 <=? of_Z 4)) with true.
  destruct (Z.ltb_spec 0 m); [|lia]. cbn [andb].
  destruct (Z.to_nat (m - 1)) as [|fuel]; [reflexivity|].
  cbn [mandelbrotLoop num_add num_sub num_mul num_leb Binary64.number].
  change (of_Z 0 * of_Z 0 - of_Z 0 * of_Z 0) with 0.
  change (of_Z 2 * of_Z 0 * of_Z 0) with 0.
  change (of_Z 4) with 4.
  rewrite !zero_plus_square, Hout. reflexivity.
Qed.

End Binary64Escape.

Lemma calculateMandelbrot_escapes_binary64_witness :
  calculateMandelbrot (N := Binary64.number) 2%float 0x1p-20%float 100 = 1%Z.
Proof.
  exact (calculateMandelbrot_escapes_binary64 2%float 0x1p-20%float 100
           ltac:(lia) eq_refl).
Defined.

(** X8: a pixel whose point reaches the limit is stored as 0, 0, 0, 255,
    for every number instance whose byte store turns the number 0 into the
    byte 0 (binary64 and the reals do). *)
Theorem renderMandelbrot_set_pixel {num : Type} {N : JsNumber num} {T : JsTrig num}
    (w h : Z) (vp : Viewport num) (opts : RenderOptions) (px py : Z) :
  ToUint8Clamp (lit 0) = 0 ->
  0 < w -> 0 < h -> 0 <= px < w -> 0 <= py < h ->
  (let c := pixelToComplex (lit px) (lit py) (lit w) (lit h) vp in
   calculateMandelbrot (real c) (imaginary c) (maxIterations opts) = maxIterations opts) ->
  exists image : ImageData,
    renderMandelbrot w h vp opts = Some image /\
    let index := (py * w + px) * 4 in
    data image !! Z.to_nat index = Some 0 /\
    data image !! Z.to_nat (index + 1) = Some 0 /\
    data image !! Z.to_nat (index + 2) = Some 0 /\
    data image !! Z.to_nat (index + 3) = Some 255.
Proof.
  intros Hzero Hw Hh Hpx Hpy Hset. cbv zeta in Hset.
  eexists. split; [apply renderMandelbrot_data; assumption|].
  cbn [data]. cbv zeta.
  pose proof (lookup_rendered w h vp opts px py) as Hlk.
  assert (Hbytes : pixelBytes w h vp opts py px = [0; 0; 0; 255]).
  { unfold pixelBytes, pixelColor. cbv zeta. rewrite Hset.
    unfold getColor. rewrite Z.eqb_refl. unfold black. cbn [r g b].
    now rewrite Hzero. }
  rewrite Hbytes in Hlk.
  replace (Z.to_nat ((py * w + px) * 4))
    with (Z.to_nat ((py * w + px) * 4 + Z.of_nat 0)) by lia.
  repeat split.
  - exact (Hlk 0%nat Hpx Hpy ltac:(lia)).
  - exact (Hlk 1%nat Hpx Hpy ltac:(lia)).
  - exact (Hlk 2%nat Hpx Hpy ltac:(lia)).
  - exact (Hlk 3%nat Hpx Hpy ltac:(lia)).
Qed.

Lemma renderMandelbrot_set_pixel_binary64_store :
  ToUint8Clamp (JsNumber := Binary64.number) (lit 0) = 0.
Proof. reflexivity. Qed.

Lemma renderMandelbrot_set_pixel_witness :
  ToUint8Clamp (JsNumber := Exact.number) (lit 0) = 0 /\
  exists image : ImageData,
    renderMandelbrot (N := Exact.number) 2 2 (mkViewport (-1) 1 (-1) 1)%R
      (mkRenderOptions 100 "fire") = Some image /\
    data image !! 15%nat = Some 255.
Proof.
  assert (Hzero : ToUint8Clamp (JsNumber := Exact.number) (lit 0) = 0)
    by (apply (ToUint8Clamp_byte 0); lia).
  split; [exact Hzero|].
  destruct (renderMandelbrot_set_pixel (N := Exact.number) 2 2
              (mkViewport (-1) 1 (-1) 1)%R (mkRenderOptions 100 "fire") 1 1
              Hzero ltac:(lia) ltac:(lia) ltac:(lia) ltac:(lia))
    as (image & Himage & _ & _ & _ & Halpha).
  - cbv zeta. apply mandelbrotLoop_small; cbn; try lia; lra.
  - exists image. split; [exact Himage | exact Halpha].
Defined.

(** * Further properties of the colour mapper *)

(** X6: a scheme selector other than the three names gives black, for every
    iteration count and limit and every number instance. *)
Theorem getColor_unknown_scheme {num : Type} {N : JsNumber num} {T : JsTrig num}
    (iteration maxIterations : Z) (scheme : string) :
  scheme <> "grayscale"%string -> scheme <> "rainbow"%string ->
  scheme <> "fire"%string ->
  getColor iteration maxIterations scheme = mkColor (lit 0) (lit 0) (lit 0).
Proof.
  intros Hg Hr Hf. unfold getColor.
  destruct (iteration =? maxIterations); [reflexivity|].
  apply String.eqb_neq in Hg, Hr, Hf. cbv zeta.
  rewrite Hg, Hr, Hf. reflexivity.
Qed.

Lemma getColor_unknown_scheme_witness :
  "plasma"%string <> "grayscale"%string /\
  getColor (N := Exact.number) 3 100 "plasma" = mkColor 0%R 0%R 0%R.
Proof.
  split; [discriminate|].
  apply (getColor_unknown_scheme (N := Exact.number) 3 100 "plasma"); discriminate.
Defined.

Section GrayscaleOrder.
Local Open Scope R_scope.
Variables (rnd host_sin : R -> R).
Hypothesis rnd_monotone : monotone rnd.
Hypothesis rnd_bytes : fixesBytes rnd.

(** The gray level as a function of the normalised depth. *)
Lemma gray_antitone (t1 t2 : R) :
  t1 <= t2 ->
  Exact.Math_floor (rnd (255 * rnd (1 - t2)))
  <= Exact.Math_floor (rnd (255 * rnd (1 - t1))).
Proof.
  intros Ht. unfold Exact.Math_floor. apply IZR_le, Int_part_monotone.
  apply rnd_monotone.
  assert (rnd (1 - t2) <= rnd (1 - t1)) by (apply rnd_monotone; lra).
  lra.
Qed.

(** X7: in the grayscale scheme a deeper point is never brighter: for
    [0 <= i <= j <= maxIterations], each channel at [j] is at most the
    channel at [i].  This holds under every monotone rounding that leaves the
    integers of [0, 255] as they are. *)
Theorem grayscale_darker_with_depth (i j maxIterations : Z) :
  (1 <= maxIterations)%Z -> (0 <= i <= j)%Z -> (j <= maxIterations)%Z ->
  let ci := getColor (N := Rounded.number rnd) (T := Rounded.trig host_sin)
              i maxIterations "grayscale" in
  let cj := getColor (N := Rounded.number rnd) (T := Rounded.trig host_sin)
              j maxIterations "grayscale" in
  r cj <= r ci /\ g cj <= g ci /\ b cj <= b ci.
Proof.
  intros Hm Hij Hj.
  destruct (getColor_bytes_of_depth rnd host_sin rnd_monotone rnd_bytes
              "grayscale" i maxIterations) as (Hri & _ & _).
  { destruct (Z.eq_dec i maxIterations); [now left | right].
    apply depth_range_rounded; assumption || lia. }
  cbv zeta in *.
  assert (Hgray : forall k, r (getColor (N := Rounded.number rnd)
                                 (T := Rounded.trig host_sin) k maxIterations "grayscale")
                  = g (getColor (N := Rounded.number rnd)
                                 (T := Rounded.trig host_sin) k maxIterations "grayscale")
               /\ r (getColor (N := Rounded.number rnd)
                                 (T := Rounded.trig host_sin) k maxIterations "grayscale")
                  = b (getColor (N := Rounded.number rnd)
                                 (T := Rounded.trig host_sin) k maxIterations "grayscale")).
  { intros k. unfold getColor. destruct (k =? maxIterations)%Z; split; reflexivity. }
  destruct (Hgray i) as [<- <-]. destruct (Hgray j) as [<- <-].
  assert (Hr : r (getColor (N := Rounded.number rnd) (T := Rounded.trig host_sin)
                    j maxIterations "grayscale")
               <= r (getColor (N := Rounded.number rnd) (T := Rounded.trig host_sin)
                    i maxIterations "grayscale")).
  { destruct Hri as (n & Hn & Hrange).
    unfold getColor in *.
    destruct (Z.eqb_spec j maxIterations) as [Hjm|Hjm].
    - rewrite Hn. unfold black. cbn [r of_Z Rounded.number].
      rewrite (rnd_bytes 0%Z) by lia. apply IZR_le. lia.
    - destruct (Z.eqb_spec i maxIterations) as [Him|Him]; [lia|].
      cbn [String.eqb Ascii.eqb Bool.eqb r of_Z num_mul num_sub num_div
           Math_floor Rounded.number andb].
      rewrite (rnd_bytes 255%Z), (rnd_bytes 1%Z) by lia.
      apply gray_antitone. apply rnd_monotone.
      assert (Hb : 1 <= rnd (IZR maxIterations)).
      { rewrite <- (rnd_bytes 1%Z) by lia. apply rnd_monotone, IZR_le. lia. }
      assert (Hab : rnd (IZR i) <= rnd (IZR j)) by (apply rnd_monotone, IZR_le; lia).
      apply Rmult_le_compat_r; [|exact Hab].
      left. apply Rinv_0_lt_compat. lra. }
  repeat split; exact Hr.
Qed.

End GrayscaleOrder.

Lemma grayscale_darker_with_depth_witness :
  monotone Rounded.toGrid /\ fixesBytes Rounded.toGrid /\
  (r (getColor (N := Rounded.number Rounded.toGrid) (T := Rounded.trig sin)
        60 100 "grayscale")
   <= r (getColor (N := Rounded.number Rounded.toGrid) (T := Rounded.trig sin)
        37 100 "grayscale"))%R.
Proof.
  split; [exact toGrid_monotone|]. split; [exact toGrid_fixesBytes|].
  apply (grayscale_darker_with_depth Rounded.toGrid sin toGrid_monotone
           toGrid_fixesBytes 37 60 100); lia.
Defined.

(** * The mapper and the pan on binary64 numbers *)

Section Binary64Facts.
Local Open Scope float_scope.

Lemma finite_cases (f : float) :
  is_finite f = true ->
  (exists s, Prim2SF f = S754_zero s) \/ (exists s m e, Prim2SF f = S754_finite s m e).
Proof.
  unfold is_finite, is_nan, is_infinity. intros Hfin.
  rewrite !FloatAxioms.eqb_spec, abs_spec in Hfin.
  destruct (Prim2SF f) as [s| s | |s m e] eqn:Hf.
  - left. now exists s.
  - exfalso. destruct s; vm_compute in Hfin; discriminate.
  - exfalso. vm_compute in Hfin. discriminate.
  - right. now exists s, m, e.
Qed.

Lemma zero_times_finite (s : float) :
  is_finite s = true -> exists sg, Prim2SF (0 * s) = S754_zero sg.
Proof.
  intros Hfin. rewrite mul_spec. unfold SF64mul.
  change (Prim2SF 0) with (S754_zero false).
  destruct (finite_cases s Hfin) as [[sg ->] | (sg & m & e & ->)];
    simpl; eexists; reflexivity.
Qed.

Lemma minus_zero_same (a z : float) (sg : bool) :
  Prim2SF z = S754_zero sg -> sameNumber (a - z) a.
Proof.
  intros Hz. unfold sameNumber.
  assert (Hsub : Prim2SF (a - z) = SFsub prec emax (Prim2SF a) (S754_zero sg))
    by (rewrite sub_spec, Hz; reflexivity).
  destruct (Prim2SF a) as [sa| sa | |sa m e] eqn:Ha.
  - right. rewrite FloatAxioms.eqb_spec, Hsub, Ha. destruct sa, sg; reflexivity.
  - left. apply Prim2SF_inj. rewrite Hsub, Ha. reflexivity.
  - left. apply Prim2SF_inj. rewrite Hsub, Ha. reflexivity.
  - left. apply Prim2SF_inj. rewrite Hsub, Ha. reflexivity.
Qed.

Lemma plus_zero_same (a z : float) (sg : bool) :
  Prim2SF z = S754_zero sg -> sameNumber (a + z) a.
Proof.
  intros Hz. unfold sameNumber.
  assert (Hadd : Prim2SF (a + z) = SFadd prec emax (Prim2SF a) (S754_zero sg))
    by (rewrite add_spec, Hz; reflexivity).
  destruct (Prim2SF a) as [sa| sa | |sa m e] eqn:Ha.
  - right. rewrite FloatAxioms.eqb_spec, Hadd, Ha. destruct sa, sg; reflexivity.
  - left. apply Prim2SF_inj. rewrite Hadd, Ha. reflexivity.
  - left. apply Prim2SF_inj. rewrite Hadd, Ha. reflexivity.
  - left. apply Prim2SF_inj. rewrite Hadd, Ha. reflexivity.
Qed.

(** X15: on binary64 a pan with [dx = 0] leaves [xMin] and [xMax] as they
    are, and one with [dy = 0] leaves [yMin] and [yMax], whenever the size
    of a pixel along that axis is finite. *)
Theorem panViewport_zero_delta_binary64 (vp : Viewport float) (dx dy w h : float) :
  let p0y := panViewport (N := Binary64.number) vp 0 dy w h in
  let px0 := panViewport (N := Binary64.number) vp dx 0 w h in
  (is_finite ((xMax vp - xMin vp) / w) = true ->
   sameNumber (xMin p0y) (xMin vp) /\ sameNumber (xMax p0y) (xMax vp)) /\
  (is_finite ((yMax vp - yMin vp) / h) = true ->
   sameNumber (yMin px0) (yMin vp) /\ sameNumber (yMax px0) (yMax vp)).
Proof.
  cbv zeta. split; intros Hfin;
    destruct (zero_times_finite _ Hfin) as [sg Hzero];
    cbn [panViewport xMin xMax yMin yMax num_sub num_mul num_div Binary64.number];
    split; apply (minus_zero_same _ _ sg); exact Hzero.
Qed.

(** X10: on binary64 the pixel (0, 0) maps to [(xMin, yMin)] whenever the
    size of a pixel is finite. *)
Theorem pixelToComplex_origin_binary64 (vp : Viewport float) (w h : float) :
  is_finite ((xMax vp - xMin vp) / w) = true ->
  is_finite ((yMax vp - yMin vp) / h) = true ->
  let c := pixelToComplex (N := Binary64.number) 0 0 w h vp in
  sameNumber (real c) (xMin vp) /\ sameNumber (imaginary c) (yMin vp).
Proof.
  intros Hx Hy. cbv zeta.
  destruct (zero_times_finite _ Hx) as [sx Hzx].
  destruct (zero_times_finite _ Hy) as [sy Hzy].
  cbn [pixelToComplex real imaginary num_add num_sub num_mul num_div Binary64.number].
  split; [apply (plus_zero_same _ _ sx) | apply (plus_zero_same _ _ sy)]; assumption.
Qed.

End Binary64Facts.

Lemma panViewport_zero_delta_binary64_witness :
  is_finite ((1 - -2.5) / 800)%float = true /\
  sameNumber
    (xMin (panViewport (N := Binary64.number) getDefaultViewport
             0%float 50%float 800%float 600%float))
    (-2.5)%float.
Proof.
  split; [reflexivity|].
  exact (proj1 (proj1 (panViewport_zero_delta_binary64 getDefaultViewport
                         0%float 50%float 800%float 600%float) eq_refl)).
Defined.

Lemma pixelToComplex_origin_binary64_witness :
  is_finite ((1 - -2.5) / 800)%float = true /\
  is_finite ((1.5 - -1.5) / 600)%float = true /\
  sameNumber
    (real (pixelToComplex (N := Binary64.number) 0%float 0%float
             800%float 600%float getDefaultViewport))
    (-2.5)%float.
Proof.
  split; [reflexivity|]. split; [reflexivity|].
  exact (proj1 (pixelToComplex_origin_binary64 getDefaultViewport
                  800%float 600%float eq_refl eq_refl)).
Defined.

(** * The viewer: what the canvas shows *)

Section ViewerFrame.
Context {num : Type} {N : JsNumber num} {T : JsTrig num} {M : JsViewerMath num}.

(** [render] writes the canvas image only. *)
Lemma render_keeps (v : MandelbrotViewer num) :
  canvasWidth (render v) = canvasWidth v /\
  canvasHeight (render v) = canvasHeight v /\
  viewport (render v) = viewport v /\
  options (render v) = options v /\
  isDragging (render v) = isDragging v /\
  dragStartX (render v) = dragStartX v /\
  dragStartY (render v) = dragStartY v.
Proof.
  unfold render. destruct (renderMandelbrot _ _ _ _); repeat split.
Qed.

Lemma render_fresh (w h : Z) (v : MandelbrotViewer num) :
  0 < w -> 0 < h -> canvasWidth v = w -> canvasHeight v = h ->
  canvasFresh w h (render v).
Proof.
  intros Hw Hh Hcw Hch. unfold canvasFresh, render. rewrite Hcw, Hch.
  rewrite (renderMandelbrot_data w h (viewport v) (options v) Hw Hh).
  cbn. repeat split; try assumption.
  symmetry. apply renderMandelbrot_data; assumption.
Qed.

Lemma handle_fresh (w h : Z) (v : MandelbrotViewer num) (e : Event num) :
  0 < w -> 0 < h -> canvasFresh w h v -> canvasFresh w h (handle v e).
Proof.
  intros Hw Hh (Hcw & Hch & Himg).
  destruct e; cbn [handle];
    try (apply render_fresh; assumption);
    try (repeat split; assumption).
  - destruct (isDragging v); repeat split; assumption.
  - destruct (isDragging v); [|repeat split; assumption].
    destruct (_ && _); [apply render_fresh; assumption | repeat split; assumption].
  - destruct (isDragging v); repeat split; assumption.
Qed.

(** X21: the canvas is never stale: on a canvas of positive size, after
    the constructor and any sequence of events, the image on the canvas is
    the frame of the current viewport and options. *)
Theorem viewer_canvas_fresh (w h : Z) (visible : bool) (rect : SelectionRect num)
    (events : list (Event num)) :
  0 < w -> 0 < h ->
  let v := run (newViewer w h visible rect) events in
  canvasWidth v = w /\ canvasHeight v = h /\
  canvasImage v = renderMandelbrot w h (viewport v) (options v).
Proof.
  intros Hw Hh. cbv zeta. unfold run.
  assert (Hinit : canvasFresh w h (newViewer w h visible rect))
    by (apply render_fresh; trivial).
  revert Hinit. generalize (newViewer w h visible rect).
  induction events as [|e events IH]; intros v Hv.
  - exact Hv.
  - cbn [foldl]. apply IH, handle_fresh; assumption.
Qed.

End ViewerFrame.

Lemma viewer_canvas_fresh_witness :
  0 < 4 /\ 0 < 3 /\
  canvasImage (run (newViewer (N := Exact.number) 4 3 false (mkSelectionRect 0 0 0 0)%R)
                 [ZoomInClick; MouseDown 1%R 1%R; PanLeftClick])
  = renderMandelbrot 4 3
      (viewport (run (newViewer (N := Exact.number) 4 3 false (mkSelectionRect 0 0 0 0)%R)
                   [ZoomInClick; MouseDown 1%R 1%R; PanLeftClick]))
      (options (run (newViewer (N := Exact.number) 4 3 false (mkSelectionRect 0 0 0 0)%R)
                  [ZoomInClick; MouseDown 1%R 1%R; PanLeftClick])).
Proof.
  split; [lia|]. split; [lia|].
  exact (proj2 (proj2 (viewer_canvas_fresh (N := Exact.number) 4 3 false
                         (mkSelectionRect 0 0 0 0)%R
                         [ZoomInClick; MouseDown 1%R 1%R; PanLeftClick]
                         ltac:(lia) ltac:(lia)))).
Defined.

(** * The selection on binary64 numbers *)

Section Binary64Order.
Local Open Scope float_scope.

Lemma not_nan_spec (f : float) : is_nan f = false -> Prim2SF f <> S754_nan.
Proof.
  unfold is_nan. rewrite FloatAxioms.eqb_spec. intros H E. rewrite E in H. discriminate.
Qed.

Lemma zero_cases (f : float) (s : bool) :
  Prim2SF f = S754_zero s -> f = if s then neg_zero else zero.
Proof. intros H. apply Prim2SF_inj. rewrite H. destruct s; reflexivity. Qed.

(** Two numbers that are not NaN are ordered one way or the other, or are
    the same number: identical, or two zeros. *)
Lemma ltb_cases (a c : float) :
  is_nan a = false -> is_nan c = false ->
  ((a <? c) = true /\ (c <? a) = false) \/
  ((a <? c) = false /\ (c <? a) = true) \/
  ((a <? c) = false /\ (c <? a) = false /\
   (a = c \/ exists s1 s2, Prim2SF a = S754_zero s1 /\ Prim2SF c = S754_zero s2)).
Proof.
  intros Ha Hc. apply not_nan_spec in Ha, Hc.
  rewrite !ltb_spec. unfold SFltb.
  destruct (Prim2SF a) as [s1|s1| |s1 m1 e1] eqn:Ea;
    destruct (Prim2SF c) as [s2|s2| |s2 m2 e2] eqn:Ec; try congruence.
  - right; right. repeat split. right. now exists s1, s2.
  - destruct s2; simpl; auto.
  - destruct s2; simpl; auto.
  - destruct s1; simpl; auto.
  - destruct s1, s2; simpl; auto; right; right; repeat split; left;
      apply Prim2SF_inj; congruence.
  - destruct s1; simpl; auto.
  - destruct s1; simpl; auto.
  - destruct s2; simpl; auto.
  - simpl. rewrite (Z.compare_antisym e1 e2).
    change (PosDef.Pos.compare_cont Eq m1 m2) with (Pos.compare m1 m2).
    change (PosDef.Pos.compare_cont Eq m2 m1) with (Pos.compare m2 m1).
    rewrite (Pos.compare_antisym m1 m2).
    destruct s1, s2; auto;
      destruct (Z.compare_spec e1 e2) as [He|He|He]; simpl; auto;
      destruct (Pos.compare_spec m1 m2) as [Hm|Hm|Hm]; simpl; auto;
      right; right; repeat split; left; apply Prim2SF_inj; congruence.
Qed.

Lemma Math_min_comm (a c : float) : Binary64.Math_min a c = Binary64.Math_min c a.
Proof.
  unfold Binary64.Math_min. rewrite (orb_comm (is_nan c)).
  destruct (is_nan a) eqn:Ha; [reflexivity|].
  destruct (is_nan c) eqn:Hc; [reflexivity|]. cbn [orb].
  destruct (ltb_cases a c Ha Hc) as [[H1 H2] | [[H1 H2] | (H1 & H2 & [E | (s1 & s2 & E1 & E2)])]];
    rewrite H1, H2; try reflexivity.
  - subst c. destruct (is_zero a && negb (get_sign a)); reflexivity.
  - rewrite (zero_cases a s1 E1), (zero_cases c s2 E2). destruct s1, s2; reflexivity.
Qed.

Lemma Math_max_comm (a c : float) : Binary64.Math_max a c = Binary64.Math_max c a.
Proof.
  unfold Binary64.Math_max. rewrite (orb_comm (is_nan c)).
  destruct (is_nan a) eqn:Ha; [reflexivity|].
  destruct (is_nan c) eqn:Hc; [reflexivity|]. cbn [orb].
  destruct (ltb_cases a c Ha Hc) as [[H1 H2] | [[H1 H2] | (H1 & H2 & [E | (s1 & s2 & E1 & E2)])]];
    rewrite H1, H2; try reflexivity.
  - subst c. destruct (is_zero a && get_sign a); reflexivity.
  - rewrite (zero_cases a s1 E1), (zero_cases c s2 E2). destruct s1, s2; reflexivity.
Qed.

(** X19, on binary64: [createZoomViewport] gives the same viewport
    whichever two opposite corners of the rectangle are passed, in either
    order, for all numbers, NaN, the infinities and the zeros included. *)
Theorem createZoomViewport_corner_order_binary64 (vp : Viewport float)
    (x1 y1 x2 y2 w h : float) :
  createZoomViewport (N := Binary64.number) vp x2 y2 x1 y1 w h
  = createZoomViewport (N := Binary64.number) vp x1 y1 x2 y2 w h /\
  createZoomViewport (N := Binary64.number) vp x2 y1 x1 y2 w h
  = createZoomViewport (N := Binary64.number) vp x1 y1 x2 y2 w h.
Proof.
  unfold createZoomViewport. cbn [Math_min Math_max Binary64.number].
  rewrite (Math_min_comm x2 x1), (Math_max_comm x2 x1),
          (Math_min_comm y2 y1), (Math_max_comm y2 y1).
  split; reflexivity.
Qed.

End Binary64Order.

(** * The viewer on binary64 numbers *)

Section Binary64Click.
Local Open Scope float_scope.
Context {T : JsTrig float}.

(** The distance of a number from itself is 0 or NaN, never 10 or more. *)
Lemma minSize_not_reached (a : float) :
  (Binary64.of_Z minSize <=? abs (a - a)) = false.
Proof.
  rewrite leb_spec, abs_spec, sub_spec.
  change (Prim2SF (Binary64.of_Z minSize)) with (Prim2SF 10).
  destruct (Prim2SF a) as [s|s| |s m e].
  - destruct s; reflexivity.
  - destruct s; reflexivity.
  - reflexivity.
  - unfold SF64sub, SFsub. rewrite Z.sub_diag. reflexivity.
Qed.

(** X25, on binary64: pressing and releasing the mouse at the same place
    changes neither the viewport, the options nor the image, and ends the
    drag with the rectangle hidden, for every host sine and all
    coordinates. *)
Theorem viewer_click_is_ignored_binary64 (v : MandelbrotViewer float)
    (offsetX offsetY : float) :
  let v' := handle (handle v (MouseDown offsetX offsetY)) (MouseUp offsetX offsetY) in
  viewport v' = viewport v /\ options v' = options v /\
  canvasImage v' = canvasImage v /\ isDragging v' = false /\
  selectionVisible v' = false.
Proof.
  cbv zeta. cbn [handle updateSelectionRect isDragging dragStartX dragStartY].
  cbn [num_sub num_leb Math_abs of_Z Binary64.number binary64ViewerMath].
  rewrite minSize_not_reached. cbn. repeat split.
Qed.

End Binary64Click.
